(** * The text handler of govulncheck (internal/scan/text.go)

    A shallow embedding of [TextHandler] and of the operations that render the
    text report: [print], [style], [wrap], [traces], [vulnerability],
    [byVulnerability], [summary], [Config], [Progress], [OSV], [Finding] and
    [Flush].

    Conventions.
    - A Go [string] is a Rocq [string]: a finite sequence of bytes.  [len] is
      the byte length, as in Go.
    - A Go [int] holds here only lengths of in-memory strings and slices and
      counters bounded by them; it is modelled by [Z].
    - The handler is threaded explicitly.  A rendering operation is a function
      from the handler to an optional result and handler; [None] is a Go
      run-time panic (index out of range, nil dereference).
    - [io.Writer] is a type class; a write may fail. *)

From Stdlib Require Import String Ascii List ZArith Lia Bool DecimalString.
Import ListNotations.

Open Scope string_scope.
Open Scope Z_scope.

(** ** Strings *)

Definition len (s : string) : Z := Z.of_nat (String.length s).

Definition nl : string := String "010" EmptyString.

(** [fmt.Fprint] of an [int]: its decimal digits, with a sign when negative. *)
Definition itoa (n : Z) : string := NilEmpty.string_of_int (Z.to_int n).

(** Concatenation of a list of strings. *)
Fixpoint cat (l : list string) : string :=
  match l with
  | [] => EmptyString
  | s :: r => s ++ cat r
  end.

(** [join sep l]: the elements of [l] separated by [sep]. *)
Fixpoint join (sep : string) (l : list string) : string :=
  match l with
  | [] => EmptyString
  | [s] => s
  | s :: r => s ++ sep ++ join sep r
  end.

(** ** strings.Fields

    [strings.Fields] splits a string around each run of white space, as
    [unicode.IsSpace] defines it: U+0009..U+000D, U+0020, U+0085, U+00A0,
    U+1680, U+2000..U+200A, U+2028, U+2029, U+202F, U+205F and U+3000.  The
    UTF-8 encoding of each of them starts with an ASCII or a leading byte
    and goes on with continuation bytes only, and the decoder never takes
    an ASCII or a leading byte for the inside of a rune: a white-space rune
    is decoded exactly where its encoding occurs, in valid and in invalid
    UTF-8 alike. *)

Definition byte (c : ascii) : Z := Z.of_N (N_of_ascii c).

Arguments byte : simpl never.

(** Whether the bytes [b1], [b2], [b3] (the last two when present) start
    with the encoding of a white-space rune, and its length then. *)
Definition spaceRune (b1 : Z) (o2 o3 : option Z) : nat :=
  if ((9 <=? b1) && (b1 <=? 13)) || (b1 =? 32) then 1%nat
  else
    match o2 with
    | None => 0%nat
    | Some b2 =>
        if (b1 =? 194) && ((b2 =? 133) || (b2 =? 160)) then 2%nat
        else
          match o3 with
          | None => 0%nat
          | Some b3 =>
              if (b1 =? 225) && (b2 =? 154) && (b3 =? 128) then 3%nat
              else if (b1 =? 226) && (b2 =? 128)
                      && (((128 <=? b3) && (b3 <=? 138))
                          || (b3 =? 168) || (b3 =? 169) || (b3 =? 175))
              then 3%nat
              else if (b1 =? 226) && (b2 =? 129) && (b3 =? 159) then 3%nat
              else if (b1 =? 227) && (b2 =? 128) && (b3 =? 128) then 3%nat
              else 0%nat
          end
    end.

Definition firstByte (s : string) : option Z :=
  match s with
  | EmptyString => None
  | String c _ => Some (byte c)
  end.

Definition dropByte (s : string) : string :=
  match s with
  | EmptyString => EmptyString
  | String _ r => r
  end.

(** The length of the encoding of a white-space rune that starts [s]; 0 when
    [s] starts with none. *)
Definition spaceWidth (s : string) : nat :=
  match firstByte s with
  | None => 0%nat
  | Some b1 =>
      spaceRune b1 (firstByte (dropByte s)) (firstByte (dropByte (dropByte s)))
  end.

(** The field in progress, closed. *)
Definition closeField (cur : string) : list string :=
  match cur with
  | EmptyString => []
  | String _ _ => [cur]
  end.

(** The scan: [skip] bytes of a white-space rune remain to be passed, [cur]
    is the field in progress. *)
Fixpoint fieldsFrom (s : string) (skip : nat) (cur : string) : list string :=
  match s with
  | EmptyString => closeField cur
  | String c r =>
      match skip with
      | S k => fieldsFrom r k cur
      | O =>
          match spaceWidth s with
          | O => fieldsFrom r 0 (cur ++ String c EmptyString)
          | S k => (closeField cur ++ fieldsFrom r k EmptyString)%list
          end
      end
  end.

Definition Fields (s : string) : list string := fieldsFrom s 0 EmptyString.

(** ** Data model

    The methods of the handler receive their argument through a pointer;
    the operations below take the pointee, for calls with a non-nil
    argument.  The pointers text.go follows inside the data are options:
    [None] is nil. *)

(** [time.Time], of which the handler only prints the text. *)
Record Time := mkTime { unixSeconds : Z }.

(** [govulncheck.Position]; it is only passed to [posToString]. *)
Record Position := mkPosition {
  Filename : string;
  Line : Z;
  Column : Z
}.

(** [govulncheck.Frame].  text.go reads [Module], [Version], [Package] and
    [Position]; [Symbol] is the symbol the frame carries. *)
Record Frame := mkFrame {
  Module : string;
  Version : string;
  Package : string;
  Symbol : string;
  FramePosition : option Position
}.

(** [govulncheck.Finding]. *)
Record Finding := mkFinding {
  FindingOSV : string;
  FixedVersion : string;
  Trace : list Frame
}.

Record DatabaseSpecific := mkDatabaseSpecific { URL : string }.

(** [osv.Entry], with the fields text.go reads and the platform tags.
    [DBSpecific] is the pointer [DatabaseSpecific]: [None] is nil, for an
    entry that carries no database-specific part. *)
Record Entry := mkEntry {
  ID : string;
  Summary : string;
  Details : string;
  DBSpecific : option DatabaseSpecific;
  Platforms : list string
}.

(** [findingSummary]: the finding, its compact trace, and the entry that
    [fixupFindings] resolves ([None] is the nil pointer before that). *)
Record findingSummary := mkFindingSummary {
  finding : Finding;
  Compact : string;
  OSV : option Entry
}.

Record summaryCounters := mkSummaryCounters {
  VulnerabilitiesCalled : Z;
  ModulesCalled : Z;
  StdlibCalled : bool
}.

(** [govulncheck.Config]. *)
Record Config := mkConfig {
  GoVersion : string;
  ScannerName : string;
  ScannerVersion : string;
  DB : string;
  DBLastModified : option Time
}.

Record Progress := mkProgress { Message : string }.

(** The Go [error] values the handler deals with. *)
Inductive error :=
  | errVulnerabilitiesFound
  | errInvalidFinding (reason : string)
  | errWrite (code : Z).

(** [type style int] and its constants. *)
Inductive styleKind :=
  | defaultStyle
  | goStyle
  | scannerStyle
  | osvCalledStyle
  | osvImportedStyle
  | detailsStyle
  | sectionStyle
  | keyStyle
  | valueStyle.

(** The operands text.go passes to [fmt.Fprint]. *)
Inductive value :=
  | VString (s : string)
  | VInt (n : Z)
  | VTime (t : Time).

(** ** Declarations of package scan that text.go uses from other files

    The constants and the helpers whose results text.go only prints or tests
    are parameters of the development. *)
Class ScanPackage := {
  GoStdModulePath : string;
  colorReset : string;
  colorBold : string;
  colorFaint : string;
  fgRed : string;
  fgGreen : string;
  fgBlue : string;
  fgYellow : string;
  fgCyan : string;
  compactTrace : Finding -> string;
  symbol : Frame -> bool -> string;
  posToString : Position -> string;
  platforms : string -> option Entry -> list string;
  moduleVersionString : string -> string -> string;
  counters : list findingSummary -> summaryCounters;
  timeString : Time -> string
}.

(** ** Helpers of package scan that are not in text.go *)

Definition isEmpty (s : string) : bool :=
  match s with
  | EmptyString => true
  | String _ _ => false
  end.

(** Modelled from the spec: [isCalled] is absent from src/.  Spec 4.4: a
    vulnerability group is called iff any finding in it carries a non-empty
    compact trace. *)
Definition isCalled (findings : list findingSummary) : bool :=
  existsb (fun f => negb (isEmpty (Compact f))) findings.

(** The identities in the order in which each was first observed. *)
Fixpoint firstSeen (keys : list string) : list string :=
  match keys with
  | [] => []
  | k :: rest => k :: filter (fun k' => negb (k' =? k)%string) (firstSeen rest)
  end.

(** Modelled from the spec: the grouping helper is absent from src/.  Spec
    4.3: a stable partition by identity, the groups in the order in which
    each distinct identity was first observed, the findings of a group in
    arrival order. *)
Definition groupBy (key : findingSummary -> string)
    (findings : list findingSummary) : list (list findingSummary) :=
  map (fun k => filter (fun f => (key f =? k)%string) findings)
      (firstSeen (map key findings)).

(** The vulnerability identity of a finding: the [ID] of its entry, which is
    the identifier the finding names. *)
Definition vulnID (f : findingSummary) : string :=
  match OSV f with
  | Some e => ID e
  | None => FindingOSV (finding f)
  end.

(** The module identity of a finding: the module of frame 0 of its trace,
    the frame text.go calls [lastFrame]. *)
Definition moduleID (f : findingSummary) : string :=
  match Trace (finding f) with
  | fr :: _ => Module fr
  | [] => EmptyString
  end.

(** Modelled from the spec: [groupByVuln] is absent from src/.  Spec 4.3,
    step 1. *)
Definition groupByVuln := groupBy vulnID.

(** Modelled from the spec: [groupByModule] is absent from src/.  Spec 4.3,
    step 2. *)
Definition groupByModule := groupBy moduleID.

(** Modelled from the spec: [getOSV] is absent from src/.  Spec 4.2: the
    metadata of the identifier, or a minimal placeholder when the producer
    omitted it, on which rendering does not fail on a nil reference: the
    placeholder carries an empty database-specific part. *)
Definition getOSV (osvs : list Entry) (id : string) : Entry :=
  match find (fun e => (ID e =? id)%string) osvs with
  | Some e => e
  | None =>
      mkEntry id EmptyString EmptyString (Some (mkDatabaseSpecific EmptyString)) []
  end.

(** Modelled from the spec: [fixupFindings] is absent from src/.  Spec 2 and
    4.2: every finding gets its resolved metadata.  The Go function updates
    the summaries through the pointers [h.findings] holds; here it returns
    the updated slice. *)
Definition fixupFindings (osvs : list Entry) (findings : list findingSummary)
    : list findingSummary :=
  map (fun f => mkFindingSummary (finding f) (Compact f)
                  (Some (getOSV osvs (FindingOSV (finding f))))) findings.

(** A finding lacks a module path when it has no frame 0 or frame 0 names no
    module. *)
Definition lacksModulePath (f : Finding) : bool :=
  match Trace f with
  | [] => true
  | fr :: _ => isEmpty (Module fr)
  end.

Definition lacksSymbol (f : Finding) : bool :=
  existsb (fun fr => isEmpty (Symbol fr)) (Trace f).

(** Modelled from the spec: [validateFindings] is absent from src/.  Spec
    4.1 and 6: a finding is rejected if it lacks a module path or any trace
    frame lacks a symbol. *)
Definition validateFindings (f : Finding) : option error :=
  if lacksModulePath f then Some (errInvalidFinding "finding without a module path")
  else if lacksSymbol f then Some (errInvalidFinding "frame without a symbol")
  else None.

(** ** The output sink *)

(** [io.Writer]: [Write w p] is the sink after the call, the byte count and
    the error it returns. *)
Class Writer (W : Type) := Write : W -> string -> W * Z * option error.

(** An in-memory sink that never fails (a [bytes.Buffer]). *)
#[export] Instance Buffer : Writer string :=
  fun b p => (b ++ p, len p, None).

(** A sink that records every call made to an underlying sink, with the
    error the call returned. *)
Definition Logged (W : Type) : Type := W * list (string * option error).

#[export] Instance LoggedWriter {W} `{Writer W} : Writer (Logged W) :=
  fun l p =>
    let '(w', n, e) := Write (fst l) p in
    ((w', (snd l ++ [(p, e)])%list), n, e).

(** A sink that accepts [budget] calls and fails every later one. *)
#[export] Instance FailAfter : Writer (nat * string) :=
  fun s p =>
    match fst s with
    | O => (s, 0, Some (errWrite 5))
    | S k => ((k, snd s ++ p), len p, None)
    end.

(** ** The handler *)

Record TextHandler (W : Type) := mkTextHandler {
  w : W;
  osvs : list Entry;
  findings : list findingSummary;
  err : option error;
  showColor : bool;
  showTraces : bool
}.

Arguments mkTextHandler {W}.
Arguments w {W}.
Arguments osvs {W}.
Arguments findings {W}.
Arguments err {W}.
Arguments showColor {W}.
Arguments showTraces {W}.

Definition NewTextHandler {W} (out : W) : TextHandler W :=
  mkTextHandler out [] [] None false false.

Definition set_w_err {W} (h : TextHandler W) (w' : W) (e : option error) :=
  mkTextHandler w' (osvs h) (findings h) e (showColor h) (showTraces h).

Definition set_findings {W} (h : TextHandler W) (fs : list findingSummary) :=
  mkTextHandler (w h) (osvs h) fs (err h) (showColor h) (showTraces h).

(** Operations that write: state passing, [None] for a panic. *)
Definition M (W A : Type) : Type := TextHandler W -> option (A * TextHandler W).

Definition ret {W A} (a : A) : M W A := fun h => Some (a, h).

Definition bind {W A B} (m : M W A) (k : A -> M W B) : M W B :=
  fun h => match m h with
           | Some (a, h') => k a h'
           | None => None
           end.

Definition panic {W A} : M W A := fun _ => None.

(** Reading [h.showColor] and [h.showTraces]. *)
Definition getShowColor {W} : M W bool := fun h => Some (showColor h, h).

Definition getShowTraces {W} : M W bool := fun h => Some (showTraces h, h).

Definition getErr {W} : M W (option error) := fun h => Some (err h, h).

Notation "x <- m ;; k" := (bind m (fun x => k))
  (at level 61, m at next level, right associativity).
Notation "m ;; k" := (bind m (fun _ => k))
  (at level 61, right associativity).

(** [s[0]]: the first element, or an index-out-of-range panic. *)
Definition index0 {W A} (s : list A) : M W A :=
  match s with
  | [] => panic
  | x :: _ => ret x
  end.

(** [*p]: the pointee, or a nil-dereference panic. *)
Definition deref {W A} (p : option A) : M W A :=
  match p with
  | None => panic
  | Some x => ret x
  end.

Section Handler.

Context {pkg : ScanPackage}.
Context {W : Type} {writer : Writer W}.

(** [fmt.Fprint] formats one operand. *)
Definition Fprint (v : value) : string :=
  match v with
  | VString s => s
  | VInt n => itoa n
  | VTime t => timeString t
  end.

(** [print]: the loop over the operands, with the running total. *)
Fixpoint print_loop (values : list value) (total : Z) : M W Z :=
  match values with
  | [] => ret total
  | v :: rest => fun h =>
      match err h with
      | Some _ => Some (total, h)
      | None =>
          let '(w', n, e) := Write (w h) (Fprint v) in
          print_loop rest (total + n) (set_w_err h w' e)
      end
  end.

Definition print (values : list value) : M W Z := print_loop values 0.

(** The codes [style] writes before the values when colour is on. *)
Definition styleCodes (st : styleKind) : list string :=
  match st with
  | defaultStyle => [colorReset]
  | goStyle => [colorBold]
  | scannerStyle => [colorBold]
  | osvCalledStyle => [colorBold; fgRed]
  | osvImportedStyle => [colorBold; fgGreen]
  | detailsStyle => [colorFaint]
  | sectionStyle => [fgBlue]
  | keyStyle => [colorFaint; fgYellow]
  | valueStyle => [colorBold; fgCyan]
  end.

Definition style (st : styleKind) (values : list value) : M W unit :=
  c <- getShowColor ;;
  (if c then print (map VString (styleCodes st)) else ret 0) ;;
  print values ;;
  c' <- getShowColor ;;
  if c' && (0 <? Z.of_nat (length values))
  then print [VString colorReset] ;; ret tt
  else ret tt.

Definition choose {A} (b : bool) (yes no : A) : A := if b then yes else no.

(** [wrap]: the loop over the fields, [w] the width of the line so far. *)
Fixpoint wrap_loop (indent : string) (fields : list string) (maxWidth w : Z)
    : M W unit :=
  match fields with
  | [] => ret tt
  | f :: rest =>
      w1 <- (if (0 <? w) && (maxWidth <? w + len f + 1)
             then print [VString nl] ;; ret 0
             else ret w) ;;
      w2 <- (if w1 =? 0
             then print [VString indent]
             else n <- print [VString " "] ;; ret (w1 + n)) ;;
      n <- print [VString f] ;;
      wrap_loop indent rest maxWidth (w2 + n)
  end.

Definition wrap (indent s : string) (maxWidth : Z) : M W unit :=
  wrap_loop indent (Fields s) maxWidth 0.

(** The frames of a full trace, [frames] being the trace reversed. *)
Fixpoint frames_loop (frames : list Frame) : M W unit :=
  match frames with
  | [] => ret tt
  | t :: rest =>
      print [VString "        "] ;;
      match FramePosition t with
      | Some pos => print [VString (posToString pos); VString ": "]
      | None => ret 0
      end ;;
      print [VString (symbol t false); VString nl] ;;
      frames_loop rest
  end.

(** [traces]: entry [i] of the slice is at the head of [traces]. *)
Fixpoint traces_loop (traces : list findingSummary) (i : Z) (first : bool)
    : M W unit :=
  match traces with
  | [] => ret tt
  | entry :: rest =>
      if isEmpty (Compact entry) then traces_loop rest (i + 1) first
      else
        (if first
         then style keyStyle [VString ("    Example traces found:" ++ nl)]
         else ret tt) ;;
        print [VString "      #"; VInt (i + 1); VString ": "] ;;
        st <- getShowTraces ;;
        (if negb st
         then print [VString (Compact entry); VString nl] ;; ret tt
         else
           t0 <- index0 (Trace (finding entry)) ;;
           print [VString "for function "; VString (symbol t0 false); VString nl] ;;
           frames_loop (rev (Trace (finding entry)))) ;;
        traces_loop rest (i + 1) false
  end.

Definition traces (entries : list findingSummary) : M W unit :=
  traces_loop entries 0 true.

Fixpoint platforms_loop (ps : list string) (ip : Z) : M W unit :=
  match ps with
  | [] => ret tt
  | p :: rest =>
      (if 0 <? ip then print [VString ", "] else ret 0) ;;
      print [VString p] ;;
      platforms_loop rest (ip + 1)
  end.

(** The body of the loop over the module groups of [vulnerability]. *)
Definition module_body (module : list findingSummary) (first : bool) : M W unit :=
  m0 <- index0 module ;;
  lastFrame <- index0 (Trace (finding m0)) ;;
  let mod_ := Module lastFrame in
  let path := if (Module lastFrame =? GoStdModulePath)%string
              then Package lastFrame else Module lastFrame in
  let foundVersion := moduleVersionString (Module lastFrame) (Version lastFrame) in
  let fixedVersion :=
    moduleVersionString (Module lastFrame) (FixedVersion (finding m0)) in
  (if negb first then print [VString nl] else ret 0) ;;
  print [VString "  "] ;;
  (if (mod_ =? GoStdModulePath)%string
   then print [VString "Standard library"] ;; ret tt
   else style keyStyle [VString "Module: "] ;; print [VString mod_] ;; ret tt) ;;
  print [VString (nl ++ "    ")] ;;
  style keyStyle [VString "Found in: "] ;;
  print [VString path; VString "@"; VString foundVersion; VString (nl ++ "    ")] ;;
  style keyStyle [VString "Fixed in: "] ;;
  (if negb (isEmpty fixedVersion)
   then print [VString path; VString "@"; VString fixedVersion]
   else print [VString "N/A"]) ;;
  print [VString nl] ;;
  let plats := platforms mod_ (OSV m0) in
  (if 0 <? Z.of_nat (length plats)
   then style keyStyle [VString "    Platforms: "] ;;
        platforms_loop plats 0 ;;
        print [VString nl] ;; ret tt
   else ret tt) ;;
  traces module.

Fixpoint modules_loop (byModule : list (list findingSummary)) (first : bool)
    : M W unit :=
  match byModule with
  | [] => ret tt
  | module :: rest => module_body module first ;; modules_loop rest false
  end.

Definition vulnerability (index : Z) (findings : list findingSummary) : M W unit :=
  style keyStyle [VString "Vulnerability"] ;;
  print [VString " #"; VInt (index + 1); VString ": "] ;;
  f0 <- index0 findings ;;
  osv0 <- deref (OSV f0) ;;
  (if isCalled findings
   then style osvCalledStyle [VString (ID osv0)]
   else style osvImportedStyle [VString (ID osv0)]) ;;
  print [VString nl] ;;
  style detailsStyle [] ;;
  let description :=
    if isEmpty (Summary osv0) then Details osv0 else Summary osv0 in
  wrap "    " description 80 ;;
  style defaultStyle [] ;;
  print [VString nl] ;;
  style keyStyle [VString "  More info:"] ;;
  db <- deref (DBSpecific osv0) ;;
  print [VString " "; VString (URL db); VString nl] ;;
  modules_loop (groupByModule findings) true ;;
  print [VString nl] ;;
  ret tt.

(** The first loop of [byVulnerability]; it returns the counter [called]. *)
Fixpoint called_loop (byVuln : list (list findingSummary)) (called : Z) : M W Z :=
  match byVuln with
  | [] => ret called
  | findings :: rest =>
      if isCalled findings
      then vulnerability called findings ;; called_loop rest (called + 1)
      else called_loop rest called
  end.

(** The second loop of [byVulnerability]. *)
Fixpoint uncalled_loop (byVuln : list (list findingSummary)) (index : Z) : M W unit :=
  match byVuln with
  | [] => ret tt
  | findings :: rest =>
      if negb (isCalled findings)
      then vulnerability index findings ;; uncalled_loop rest (index + 1)
      else uncalled_loop rest index
  end.

Definition byVulnerability (findings : list findingSummary) : M W unit :=
  let byVuln := groupByVuln findings in
  called <- called_loop byVuln 0 ;;
  let unCalled := Z.of_nat (length byVuln) - called in
  if unCalled =? 0 then ret tt
  else
    style sectionStyle [VString ("=== Informational ===" ++ nl)] ;;
    print [VString (nl ++ "Found "); VInt unCalled] ;;
    print [VString (choose (unCalled =? 1) " vulnerability" " vulnerabilities")] ;;
    print [VString (" in packages that you import, but there are no call" ++ nl
                    ++ "stacks leading to the use of ")] ;;
    print [VString (choose (unCalled =? 1) "this vulnerability" "these vulnerabilities")] ;;
    print [VString (". You may not need to" ++ nl
                    ++ "take any action. See https://pkg.go.dev/golang.org/x/vuln/cmd/govulncheck"
                    ++ nl ++ "for details." ++ nl ++ nl)] ;;
    uncalled_loop byVuln 0.

Definition summary (findings : list findingSummary) : M W unit :=
  let counters := counters findings in
  if VulnerabilitiesCalled counters =? 0
  then print [VString ("No vulnerabilities found." ++ nl)] ;; ret tt
  else
    print [VString "Your code is affected by "] ;;
    style valueStyle [VInt (VulnerabilitiesCalled counters)] ;;
    print [VString (choose (VulnerabilitiesCalled counters =? 1)
                      " vulnerability" " vulnerabilities")] ;;
    print [VString " from"] ;;
    (if 0 <? ModulesCalled counters
     then print [VString " "] ;;
          style valueStyle [VInt (ModulesCalled counters)] ;;
          print [VString (choose (ModulesCalled counters =? 1) " module" " modules")] ;;
          ret tt
     else ret tt) ;;
    (if StdlibCalled counters
     then (if negb (ModulesCalled counters =? 0)
           then print [VString " and"] else ret 0) ;;
          print [VString " the Go standard library"] ;; ret tt
     else ret tt) ;;
    print [VString ("." ++ nl)] ;;
    ret tt.

Definition feedbackMessage : string :=
  nl ++ "Share feedback at https://go.dev/s/govulncheck-feedback." ++ nl.

(** [Flush].  [fixupFindings] updates the summaries [h.findings] points to. *)
Definition Flush : M W (option error) :=
  fun h =>
    let h1 := set_findings h (fixupFindings (osvs h) (findings h)) in
    (byVulnerability (findings h1) ;;
     summary (findings h1) ;;
     print [VString feedbackMessage] ;;
     e <- getErr ;;
     match e with
     | Some e' => ret (Some e')
     | None =>
         if isCalled (findings h1)
         then ret (Some errVulnerabilitiesFound)
         else ret None
     end) h1.

Definition ConfigOp (config : Config) : M W (option error) :=
  print [VString "Using "] ;;
  (if negb (isEmpty (GoVersion config))
   then style goStyle [VString (GoVersion config)] ;;
        print [VString " and "] ;; ret tt
   else ret tt) ;;
  (if negb (isEmpty (ScannerName config))
   then style scannerStyle [VString (ScannerName config)] ;;
        (if negb (isEmpty (ScannerVersion config))
         then print [VString "@"; VString (ScannerVersion config)]
         else ret 0) ;;
        print [VString " with "] ;; ret tt
   else ret tt) ;;
  print [VString "vulnerability data from "; VString (DB config)] ;;
  match DBLastModified config with
  | Some t => print [VString " (last modified "; VTime t; VString ")"]
  | None => ret 0
  end ;;
  print [VString ("." ++ nl ++ nl)] ;;
  getErr.

Definition ProgressOp (progress : Progress) : M W (option error) :=
  print [VString (Message progress); VString (nl ++ nl)] ;;
  getErr.

(** Modelled from the spec: [newFindingSummary] is absent from src/.  Spec
    3: the finding with its precomputed compact trace; the metadata is
    resolved at flush. *)
Definition newFindingSummary (f : Finding) : findingSummary :=
  mkFindingSummary f (compactTrace f) None.

(** [OSV] gathers an entry. *)
Definition OSVOp (h : TextHandler W) (entry : Entry) : TextHandler W * option error :=
  (mkTextHandler (w h) (osvs h ++ [entry])%list (findings h) (err h)
     (showColor h) (showTraces h), None).

(** [Finding] gathers a finding, or rejects it. *)
Definition FindingOp (h : TextHandler W) (f : Finding)
    : TextHandler W * option error :=
  match validateFindings f with
  | Some e => (h, Some e)
  | None => (set_findings h (findings h ++ [newFindingSummary f])%list, None)
  end.

(** [Show]. *)
Fixpoint Show (h : TextHandler W) (show : list string) : TextHandler W :=
  match show with
  | [] => h
  | s :: rest =>
      let h' :=
        if (s =? "traces")%string
        then mkTextHandler (w h) (osvs h) (findings h) (err h) (showColor h) true
        else if (s =? "color")%string
        then mkTextHandler (w h) (osvs h) (findings h) (err h) true (showTraces h)
        else h in
      Show h' rest
  end.

End Handler.

(** ** The report as a document

    What the operations write, as a list of pieces: a [Code] piece is a
    style code, written only when colour is on; a [Text] piece is content.
    The theorems below relate each operation to its document. *)

Inductive piece :=
  | Code (s : string)
  | Text (s : string).

Definition renderPiece (color : bool) (p : piece) : string :=
  match p with
  | Code s => if color then s else EmptyString
  | Text s => s
  end.

Definition render (color : bool) (ps : list piece) : string :=
  cat (map (renderPiece color) ps).

(** The elements of a slice with their indices, counted from [i]. *)
Fixpoint numberFrom {A} (i : Z) (l : list A) : list (Z * A) :=
  match l with
  | [] => []
  | x :: r => (i, x) :: numberFrom (i + 1) r
  end.

(** A line of wrapped text, and the lines of a paragraph. *)
Definition renderLine (indent : string) (line : list string) : string :=
  indent ++ join " " line.

Definition renderLines (indent : string) (lines : list (list string)) : string :=
  join nl (map (renderLine indent) lines).

(** Greedy filling: [cur] is the line in progress, of width [w]. *)
Fixpoint fillLines (indent : string) (maxWidth : Z) (cur : list string) (w : Z)
    (fields : list string) : list (list string) :=
  match fields with
  | [] => [cur]
  | f :: rest =>
      if maxWidth <? w + len f + 1
      then cur :: fillLines indent maxWidth [f] (len indent + len f) rest
      else fillLines indent maxWidth (cur ++ [f])%list (w + 1 + len f) rest
  end.

Definition wrapLines (indent : string) (maxWidth : Z) (fields : list string)
    : list (list string) :=
  match fields with
  | [] => []
  | f :: rest => fillLines indent maxWidth [f] (len indent + len f) rest
  end.

(** A line respects the width, or it is the indent and one word that do not
    fit together. *)
Definition lineFits (indent : string) (maxWidth : Z) (line : list string) : Prop :=
  line <> [] /\
  (len (renderLine indent line) <= maxWidth \/
   exists f, line = [f] /\ maxWidth < len indent + len f).

(** The handler's inputs, in arrival order. *)
Inductive event :=
  | EvConfig (c : Config)
  | EvProgress (p : Progress)
  | EvOSV (e : Entry)
  | EvFinding (f : Finding).

Section Document.

Context {pkg : ScanPackage}.

Definition styled (st : styleKind) (values : list value) : list piece :=
  (map Code (styleCodes st) ++ map (fun v => Text (Fprint v)) values
   ++ match values with
      | [] => []
      | _ :: _ => [Code colorReset]
      end)%list.

Definition wrapDoc (indent s : string) (maxWidth : Z) : list piece :=
  [Text (renderLines indent (wrapLines indent maxWidth (Fields s)))].

Definition frameDoc (t : Frame) : list piece :=
  ([Text "        "]
   ++ match FramePosition t with
      | Some pos => [Text (posToString pos); Text ": "]
      | None => []
      end
   ++ [Text (symbol t false); Text nl])%list.

(** The text of one trace: the compact trace, or the frames outermost first. *)
Definition traceBody (full : bool) (entry : findingSummary) : list piece :=
  if negb full then [Text (Compact entry); Text nl]
  else
    match Trace (finding entry) with
    | [] => []
    | t0 :: _ =>
        ([Text "for function "; Text (symbol t0 false); Text nl]
         ++ flat_map frameDoc (rev (Trace (finding entry))))%list
    end.

Definition traceLine (full : bool) (ie : Z * findingSummary) : list piece :=
  ([Text "      #"; Text (itoa (fst ie + 1)); Text ": "]
   ++ traceBody full (snd ie))%list.

(** The findings of a sub-group that have a compact trace, each with its
    position in the sub-group (counted from [i]). *)
Definition shownFrom (i : Z) (entries : list findingSummary)
    : list (Z * findingSummary) :=
  filter (fun ie => negb (isEmpty (Compact (snd ie)))) (numberFrom i entries).

Definition tracesHeader : list piece :=
  styled keyStyle [VString ("    Example traces found:" ++ nl)].

Definition tracesDoc (full : bool) (entries : list findingSummary) : list piece :=
  match shownFrom 0 entries with
  | [] => []
  | shown => (tracesHeader ++ flat_map (traceLine full) shown)%list
  end.

(** The path printed before [@]: the package for the standard library. *)
Definition reprPath (lastFrame : Frame) : string :=
  if (Module lastFrame =? GoStdModulePath)%string
  then Package lastFrame else Module lastFrame.

Definition moduleLineDoc (lastFrame : Frame) : list piece :=
  ([Text "  "]
   ++ (if (Module lastFrame =? GoStdModulePath)%string
       then [Text "Standard library"]
       else styled keyStyle [VString "Module: "] ++ [Text (Module lastFrame)])
   ++ [Text (nl ++ "    ")])%list.

Definition foundInDoc (lastFrame : Frame) : list piece :=
  (styled keyStyle [VString "Found in: "]
   ++ [Text (reprPath lastFrame); Text "@";
       Text (moduleVersionString (Module lastFrame) (Version lastFrame));
       Text (nl ++ "    ")])%list.

Definition fixedInDoc (lastFrame : Frame) (fixed : string) : list piece :=
  (styled keyStyle [VString "Fixed in: "]
   ++ (if isEmpty (moduleVersionString (Module lastFrame) fixed)
       then [Text "N/A"]
       else [Text (reprPath lastFrame); Text "@";
             Text (moduleVersionString (Module lastFrame) fixed)])
   ++ [Text nl])%list.

Definition platformsDoc (plats : list string) : list piece :=
  match plats with
  | [] => []
  | _ :: _ =>
      (styled keyStyle [VString "    Platforms: "]
       ++ [Text (join ", " plats)] ++ [Text nl])%list
  end.

(** The lines of a module sub-group that come from its representative: frame
    [lastFrame], the fixed version [fixed] and the entry [osv]. *)
Definition representativeDoc (lastFrame : Frame) (fixed : string)
    (osv : option Entry) : list piece :=
  (moduleLineDoc lastFrame ++ foundInDoc lastFrame ++ fixedInDoc lastFrame fixed
   ++ platformsDoc (platforms (Module lastFrame) osv))%list.

Definition moduleDoc (full : bool) (first : bool) (module : list findingSummary)
    : list piece :=
  match module with
  | [] => []
  | m0 :: _ =>
      match Trace (finding m0) with
      | [] => []
      | lastFrame :: _ =>
          ((if first then [] else [Text nl])
           ++ representativeDoc lastFrame (FixedVersion (finding m0)) (OSV m0)
           ++ tracesDoc full module)%list
      end
  end.

Fixpoint modulesDoc (full : bool) (first : bool) (byModule : list (list findingSummary))
    : list piece :=
  match byModule with
  | [] => []
  | module :: rest =>
      (moduleDoc full first module ++ modulesDoc full false rest)%list
  end.

(** The reference URL of an entry that carries its database-specific
    part. *)
Definition moreInfoURL (e : Entry) : string :=
  match DBSpecific e with
  | Some db => URL db
  | None => EmptyString
  end.

(** The lines of a vulnerability group before its module sub-groups. *)
Definition vulnHeadDoc (index : Z) (called : bool) (osv0 : Entry) : list piece :=
  (styled keyStyle [VString "Vulnerability"]
   ++ [Text " #"; Text (itoa (index + 1)); Text ": "]
   ++ styled (if called then osvCalledStyle else osvImportedStyle) [VString (ID osv0)]
   ++ [Text nl]
   ++ styled detailsStyle []
   ++ wrapDoc "    " (if isEmpty (Summary osv0) then Details osv0 else Summary osv0) 80
   ++ styled defaultStyle []
   ++ [Text nl]
   ++ styled keyStyle [VString "  More info:"]
   ++ [Text " "; Text (moreInfoURL osv0); Text nl])%list.

Definition vulnerabilityDoc (full : bool) (index : Z) (findings : list findingSummary)
    : list piece :=
  match findings with
  | [] => []
  | f0 :: _ =>
      match OSV f0 with
      | None => []
      | Some osv0 =>
          (vulnHeadDoc index (isCalled findings) osv0
           ++ modulesDoc full true (groupByModule findings)
           ++ [Text nl])%list
      end
  end.

(** A section: its groups, numbered from 1 in their order. *)
Definition sectionDoc (full : bool) (groups : list (list findingSummary))
    : list piece :=
  flat_map (fun ig => vulnerabilityDoc full (fst ig) (snd ig)) (numberFrom 0 groups).

Definition informationalIntro (unCalled : Z) : list piece :=
  (styled sectionStyle [VString ("=== Informational ===" ++ nl)]
   ++ [Text (nl ++ "Found "); Text (itoa unCalled);
       Text (choose (unCalled =? 1) " vulnerability" " vulnerabilities");
       Text (" in packages that you import, but there are no call" ++ nl
             ++ "stacks leading to the use of ");
       Text (choose (unCalled =? 1) "this vulnerability" "these vulnerabilities");
       Text (". You may not need to" ++ nl
             ++ "take any action. See https://pkg.go.dev/golang.org/x/vuln/cmd/govulncheck"
             ++ nl ++ "for details." ++ nl ++ nl)])%list.

Definition calledGroups (findings : list findingSummary) :=
  filter isCalled (groupByVuln findings).

Definition unCalledGroups (findings : list findingSummary) :=
  filter (fun g => negb (isCalled g)) (groupByVuln findings).

Definition primaryDoc (full : bool) (findings : list findingSummary) : list piece :=
  sectionDoc full (calledGroups findings).

Definition informationalDoc (full : bool) (findings : list findingSummary)
    : list piece :=
  match unCalledGroups findings with
  | [] => []
  | groups =>
      (informationalIntro (Z.of_nat (length groups)) ++ sectionDoc full groups)%list
  end.

Definition byVulnerabilityDoc (full : bool) (findings : list findingSummary)
    : list piece :=
  (primaryDoc full findings ++ informationalDoc full findings)%list.

(** The closing sentence for given counters. *)
Definition modulesClause (c : summaryCounters) : list piece :=
  if 0 <? ModulesCalled c
  then ([Text " "] ++ styled valueStyle [VInt (ModulesCalled c)]
        ++ [Text (if ModulesCalled c =? 1 then " module" else " modules")])%list
  else [].

Definition stdlibClause (c : summaryCounters) : list piece :=
  if StdlibCalled c
  then ((if negb (ModulesCalled c =? 0) then [Text " and"] else [])
        ++ [Text " the Go standard library"])%list
  else [].

Definition summaryDoc (c : summaryCounters) : list piece :=
  if VulnerabilitiesCalled c =? 0
  then [Text ("No vulnerabilities found." ++ nl)]
  else
    ([Text "Your code is affected by "]
     ++ styled valueStyle [VInt (VulnerabilitiesCalled c)]
     ++ [Text (if VulnerabilitiesCalled c =? 1
               then " vulnerability" else " vulnerabilities");
         Text " from"]
     ++ modulesClause c ++ stdlibClause c
     ++ [Text ("." ++ nl)])%list.

Definition flushDoc (full : bool) (findings : list findingSummary) : list piece :=
  (byVulnerabilityDoc full findings ++ summaryDoc (counters findings)
   ++ [Text feedbackMessage])%list.

Definition configDoc (config : Config) : list piece :=
  ([Text "Using "]
   ++ (if negb (isEmpty (GoVersion config))
       then styled goStyle [VString (GoVersion config)] ++ [Text " and "]
       else [])
   ++ (if negb (isEmpty (ScannerName config))
       then styled scannerStyle [VString (ScannerName config)]
            ++ (if negb (isEmpty (ScannerVersion config))
                then [Text "@"; Text (ScannerVersion config)] else [])
            ++ [Text " with "]
       else [])
   ++ [Text "vulnerability data from "; Text (DB config)]
   ++ match DBLastModified config with
      | Some t => [Text " (last modified "; Text (timeString t); Text ")"]
      | None => []
      end
   ++ [Text ("." ++ nl ++ nl)])%list.

Definition progressDoc (progress : Progress) : list piece :=
  [Text (Message progress); Text (nl ++ nl)].

End Document.

(** ** Whole runs *)

Section Run.

Context {pkg : ScanPackage}.
Context {W : Type} {writer : Writer W}.

(** The producer's calls, in order; the error a call returns is dropped, as
    a producer that logs and continues does. *)
Fixpoint runEvents (h : TextHandler W) (evs : list event) : option (TextHandler W) :=
  match evs with
  | [] => Some h
  | EvConfig c :: rest =>
      match ConfigOp c h with
      | Some (_, h') => runEvents h' rest
      | None => None
      end
  | EvProgress p :: rest =>
      match ProgressOp p h with
      | Some (_, h') => runEvents h' rest
      | None => None
      end
  | EvOSV e :: rest => runEvents (fst (OSVOp h e)) rest
  | EvFinding f :: rest => runEvents (fst (FindingOp h f)) rest
  end.

(** A scan: the display options, the producer's calls, the flush. *)
Definition scan (out : W) (show : list string) (evs : list event)
    : option (option error * TextHandler W) :=
  match runEvents (Show (NewTextHandler out) show) evs with
  | Some h =>
      match Flush h with
      | Some (r, h') => Some (r, h')
      | None => None
      end
  | None => None
  end.

End Run.

(** The report a scan writes to an empty buffer. *)
Definition report {pkg : ScanPackage} (show : list string) (evs : list event)
    : option string :=
  match scan EmptyString show evs with
  | Some (_, h) => Some (w h)
  | None => None
  end.

(** Every finding the handler holds has a frame 0. *)
Definition hasTrace (f : findingSummary) : bool :=
  match Trace (finding f) with
  | [] => false
  | _ :: _ => true
  end.

(** An entry that carries its database-specific part. *)
Definition hasDB (e : Entry) : bool :=
  match DBSpecific e with
  | None => false
  | Some _ => true
  end.

(** The entry of the finding is resolved and carries its database-specific
    part: [vulnerability] dereferences both pointers. *)
Definition hasOSV (f : findingSummary) : bool :=
  match OSV f with
  | None => false
  | Some e => hasDB e
  end.

(** ** Removing style codes from a report *)

Definition esc : ascii := "027"%char.

Definition isDigit (c : ascii) : bool := (48 <=? byte c) && (byte c <=? 57).

(** The length of the digits and the final [m] of a style code that start
    [s], when [s] starts with them. *)
Fixpoint sgrLen (s : string) : option nat :=
  match s with
  | EmptyString => None
  | String c r =>
      if byte c =? 109 then Some 1%nat
      else if isDigit c then option_map S (sgrLen r)
      else None
  end.

(** The length of the style code [ESC [ digits m] that starts [s]; 0 when
    [s] starts with none. *)
Definition codeWidth (s : string) : nat :=
  match s with
  | String c1 (String c2 r) =>
      if (byte c1 =? 27) && (byte c2 =? 91) then
        match sgrLen r with
        | Some n => S (S n)
        | None => 0%nat
        end
      else 0%nat
  | _ => 0%nat
  end.

(** The scan that drops the style codes; [skip] bytes of a code remain. *)
Fixpoint stripFrom (s : string) (skip : nat) : string :=
  match s with
  | EmptyString => EmptyString
  | String c r =>
      match skip with
      | S k => stripFrom r k
      | O =>
          match codeWidth s with
          | O => String c (stripFrom r 0)
          | S k => stripFrom r k
          end
      end
  end.

(** [s] without its style codes. *)
Definition stripCodes (s : string) : string := stripFrom s 0.

(** A style code and nothing else. *)
Definition isStyleCode (s : string) : bool :=
  negb (isEmpty s) && (codeWidth s =? String.length s)%nat.

Fixpoint noEsc (s : string) : bool :=
  match s with
  | EmptyString => true
  | String c r => negb (byte c =? 27) && noEsc r
  end.

Definition styleCodesOK (pkg : ScanPackage) : bool :=
  forallb isStyleCode
    [colorReset; colorBold; colorFaint; fgRed; fgGreen; fgBlue; fgYellow; fgCyan].

(** ** A concrete package, for examples

    The ANSI codes of a terminal; helpers in their simplest form. *)

(** Modelled from the spec: [counters] is absent from src/.  Spec 4.6: the
    called vulnerabilities, the distinct called modules other than the
    standard library, and whether the standard library is called. *)
Definition countersOf (std : string) (findings : list findingSummary) : summaryCounters :=
  let called := filter (fun f => negb (isEmpty (Compact f))) findings in
  let modules := firstSeen (map moduleID called) in
  mkSummaryCounters
    (Z.of_nat (length (firstSeen (map vulnID called))))
    (Z.of_nat (length (filter (fun m => negb (m =? std)%string) modules)))
    (existsb (fun m => (m =? std)%string) modules).

Definition sgr (digits : string) : string :=
  String esc (String "["%char (digits ++ "m")).

Definition ansiPackage : ScanPackage := {|
  GoStdModulePath := "stdlib";
  colorReset := sgr "0";
  colorBold := sgr "1";
  colorFaint := sgr "2";
  fgRed := sgr "31";
  fgGreen := sgr "32";
  fgBlue := sgr "34";
  fgYellow := sgr "33";
  fgCyan := sgr "36";
  compactTrace := fun f =>
    match Trace f with
    | fr :: _ :: _ => Symbol fr
    | _ => EmptyString
    end;
  symbol := fun fr _ => Symbol fr;
  posToString := fun pos => Filename pos ++ ":" ++ itoa (Line pos) ++ ":" ++ itoa (Column pos);
  platforms := fun _ osv =>
    match osv with
    | Some e => Platforms e
    | None => []
    end;
  moduleVersionString := fun _ version => version;
  counters := countersOf "stdlib";
  timeString := fun t => itoa (unixSeconds t)
|}.

(** * Definitions for the proofs *)

(** ** Words and white space *)
(** [s] is empty or starts with a byte that is not a continuation byte. *)
Definition startsFresh (s : string) : Prop :=
  match s with
  | EmptyString => True
  | String c _ => byte c < 128 \/ 191 < byte c
  end.

(** No white-space rune starts inside [f] when [rest] follows it. *)
Fixpoint cleanIn (f rest : string) : Prop :=
  match f with
  | EmptyString => True
  | String c f' => spaceWidth (String c f' ++ rest) = 0%nat /\ cleanIn f' rest
  end.

(** A word of [strings.Fields]: not empty, and free of white space whatever
    fresh text follows. *)
Definition isWord (f : string) : Prop :=
  f <> EmptyString /\ forall rest, startsFresh rest -> cleanIn f rest.

(** White space only: the scan of [s] closes no field. *)
Definition blank (s : string) : Prop := Fields s = [].

(** [rest] is empty or starts with white space. *)
Definition sepStart (rest : string) : Prop :=
  rest = EmptyString \/ spaceWidth rest <> 0%nat.

(** ** Writing to a buffer *)
(** The handler after [t] was appended to its buffer. *)
Definition emit (h : TextHandler string) (t : string) : TextHandler string :=
  set_w_err h (w h ++ t) (err h).

(** [m] returns [a] and writes the document [ps], on every buffer handler
    without a recorded error whose options are [c] and [tr]. *)
Definition Emits {A} (c tr : bool) (m : M string A) (a : A) (ps : list piece) : Prop :=
  forall h, err h = None -> showColor h = c -> showTraces h = tr ->
    m h = Some (a, emit h (render c ps)).

(** The text of the operands of one [print]. *)
Definition printed {pkg : ScanPackage} (values : list value) : string := cat (map Fprint values).

(** A finding whose trace [traces] can print: in full mode a finding with a
    compact trace has a frame 0. *)
Definition traceable (full : bool) (e : findingSummary) : bool :=
  negb full || isEmpty (Compact e) || hasTrace e.

(** A finding [vulnerability] can print: its entry is resolved and carries
    its database-specific part, and it has a frame 0. *)
Definition ready (f : findingSummary) : bool := hasOSV f && hasTrace f.

(** The document of the loop of [traces], entered at index [i]. *)
Definition tracesFrom {pkg : ScanPackage} (full : bool) (i : Z) (first : bool)
    (entries : list findingSummary) : list piece :=
  ((if first
    then match shownFrom i entries with [] => [] | _ :: _ => tracesHeader end
    else [])
   ++ flat_map (traceLine full) (shownFrom i entries))%list.

(** A module group [vulnerability] can print: its first finding has a frame
    0, and [traces] can print its findings. *)
Definition printable (full : bool) (module : list findingSummary) : bool :=
  match module with
  | [] => false
  | m0 :: _ => hasTrace m0 && forallb (traceable full) module
  end.

(** A vulnerability group [vulnerability] can print: the entry of its first
    finding is resolved and carries its database-specific part, and its
    module groups can be printed. *)
Definition renders (full : bool) (findings : list findingSummary) : bool :=
  match findings with
  | [] => false
  | f0 :: _ => hasOSV f0 && forallb (printable full) (groupByModule findings)
  end.

Definition groupsReady (groups : list (list findingSummary)) : Prop :=
  Forall (fun g => g <> [] /\ Forall (fun f => ready f = true) g) groups.

(** What [Flush] returns when no write fails. *)
Definition flushResult (findings : list findingSummary) : option error :=
  if isCalled findings then Some errVulnerabilitiesFound else None.

Section Reach.

Context {W : Type} {writer : Writer W}.

(** [reach h h']: [h'] is [h] after a sequence of calls to [Write], each made
    while no error was recorded, and each recording the error it returned. *)
Inductive reach (h : TextHandler W) : TextHandler W -> Prop :=
  | reach_refl : reach h h
  | reach_write h' p w' n e :
      reach h h' -> err h' = None -> Write (w h') p = (w', n, e) ->
      reach h (set_w_err h' w' e).

(** [m] does not panic, and all it does to the handler is write. *)
Definition Runs {A} (m : M W A) : Prop :=
  forall h, exists a h', m h = Some (a, h') /\ reach h h'.

(** [m] panics on [h] exactly when [c] is false, and all it does to the
    handler otherwise is write. *)
Definition Decides {A} (m : M W A) (h : TextHandler W) (c : bool) : Prop :=
  match m h with
  | Some (_, h') => c = true /\ reach h h'
  | None => c = false
  end.

End Reach.

Definition wantsColor (show : list string) : bool :=
  existsb (fun s => (s =? "color")%string) show.

Definition wantsTraces (show : list string) : bool :=
  existsb (fun s => (s =? "traces")%string) show.

(** The findings the handler accepts among the producer's calls. *)
Definition findingsOf {pkg : ScanPackage} (evs : list event) : list findingSummary :=
  flat_map (fun ev => match ev with
                      | EvFinding f =>
                          match validateFindings f with
                          | None => [newFindingSummary f]
                          | Some _ => []
                          end
                      | _ => []
                      end) evs.

(** A call the renderer can serve: an entry that carries its
    database-specific part, a finding with a frame 0. *)
Definition renderable (ev : event) : bool :=
  match ev with
  | EvOSV e => hasDB e
  | EvFinding f =>
      match Trace f with
      | [] => false
      | _ :: _ => true
      end
  | _ => true
  end.

Definition osvsOf (evs : list event) : list Entry :=
  flat_map (fun ev => match ev with
                      | EvOSV e => [e]
                      | _ => []
                      end) evs.

(** What the calls before the flush write. *)
Definition eventsDoc {pkg : ScanPackage} (evs : list event) : list piece :=
  flat_map (fun ev => match ev with
                      | EvConfig c => configDoc c
                      | EvProgress p => progressDoc p
                      | _ => []
                      end) evs.

(** The whole report of a scan. *)
Definition reportDoc {pkg : ScanPackage} (full : bool) (evs : list event) : list piece :=
  (eventsDoc evs
   ++ flushDoc full (fixupFindings (osvsOf evs) (findingsOf evs)))%list.

(** ** Sample data *)
Definition frameVmod : Frame :=
  mkFrame "golang.org/vmod" "v0.0.1" "golang.org/vmod" "vmod.Vuln" None.

Definition frameMain : Frame :=
  mkFrame "example.com/app" "v1.0.0" "main" "main.main" None.

Definition frameHTTP : Frame :=
  mkFrame "stdlib" "go0.0.1" "net/http" "http.Vuln2" None.

Definition entryVmod : Entry :=
  mkEntry "GO-0000-0001" "Third-party vulnerability" EmptyString
    (Some (mkDatabaseSpecific "https://pkg.go.dev/vuln/GO-0000-0001")) ["amd"].

Definition entryHTTP : Entry :=
  mkEntry "GO-0000-0002" "Stdlib vulnerability" EmptyString
    (Some (mkDatabaseSpecific "https://pkg.go.dev/vuln/GO-0000-0002")) [].

(** A called finding in a module, and an imported one in the standard
    library. *)
Definition findingVmod : Finding :=
  mkFinding "GO-0000-0001" "v0.1.3" [frameVmod; frameMain].

Definition findingHTTP : Finding :=
  mkFinding "GO-0000-0002" EmptyString [frameHTTP].

Definition summaryVmod : findingSummary :=
  mkFindingSummary findingVmod "vmod.Vuln" (Some entryVmod).

Definition summaryHTTP : findingSummary :=
  mkFindingSummary findingHTTP EmptyString (Some entryHTTP).

Definition sampleFindings : list findingSummary := [summaryHTTP; summaryVmod].

Definition sampleEvents : list event :=
  [EvOSV entryVmod; EvOSV entryHTTP; EvFinding findingHTTP; EvFinding findingVmod].

Definition emptyBuffer : TextHandler string := NewTextHandler EmptyString.

(** ** The log of a sink *)
Definition callOk (c : string * option error) : Prop := snd c = None.

(** The calls a flush makes, against the error it records: without a
    recorded error every call succeeded; with one, the failing call is the
    last one made and the recorded error is the one it returned. *)
Definition stickyLog (calls : list (string * option error)) (e : option error)
    : Prop :=
  match e with
  | None => Forall callOk calls
  | Some e' => exists pre p, calls = (pre ++ [(p, Some e')])%list /\ Forall callOk pre
  end.

Definition sampleHandler : TextHandler string :=
  mkTextHandler EmptyString [entryVmod; entryHTTP]
    [newFindingSummary (pkg := ansiPackage) findingHTTP;
     newFindingSummary (pkg := ansiPackage) findingVmod]
    None false false.

(** An entry without its database-specific part, and a handler that holds
    it with a finding that names it. *)
Definition entryBare : Entry :=
  mkEntry "GO-0000-0002" "Stdlib vulnerability" EmptyString None [].

Definition bareHandler : TextHandler string :=
  mkTextHandler EmptyString [entryBare]
    [newFindingSummary (pkg := ansiPackage) findingHTTP]
    None false false.

(** A logging sink over a buffer. *)
Definition loggingHandler : TextHandler (Logged string) :=
  mkTextHandler (EmptyString, []) [entryVmod; entryHTTP]
    [newFindingSummary (pkg := ansiPackage) findingHTTP;
     newFindingSummary (pkg := ansiPackage) findingVmod]
    None false false.

(** A logging sink over one that fails from its third call on. *)
Definition failingHandler : TextHandler (Logged (nat * string)) :=
  mkTextHandler ((2%nat, EmptyString), []) [entryVmod; entryHTTP]
    [newFindingSummary (pkg := ansiPackage) findingHTTP;
     newFindingSummary (pkg := ansiPackage) findingVmod]
    None false false.

(** The closing sentence in the words of the specification, without
    colour. *)
Definition summaryText (c : summaryCounters) : string :=
  if VulnerabilitiesCalled c =? 0 then "No vulnerabilities found." ++ nl
  else
    "Your code is affected by " ++ itoa (VulnerabilitiesCalled c)
    ++ (if VulnerabilitiesCalled c =? 1 then " vulnerability" else " vulnerabilities")
    ++ " from"
    ++ (if ModulesCalled c =? 0 then EmptyString
        else " " ++ itoa (ModulesCalled c)
             ++ (if ModulesCalled c =? 1 then " module" else " modules"))
    ++ (if StdlibCalled c
        then (if ModulesCalled c =? 0 then EmptyString else " and")
             ++ " the Go standard library"
        else EmptyString)
    ++ "." ++ nl.

Definition summaryVmod2 : findingSummary :=
  mkFindingSummary (mkFinding "GO-0000-0001" "v0.1.3" [frameVmod; frameMain])
    "vmod.Vuln2" (Some entryVmod).

(** Two findings with the same trace and different fixed versions. *)
Definition fixedA : findingSummary :=
  mkFindingSummary (mkFinding "GO-0000-0001" "v0.1.3" [frameVmod; frameMain])
    EmptyString (Some entryVmod).

Definition fixedB : findingSummary :=
  mkFindingSummary (mkFinding "GO-0000-0001" EmptyString [frameVmod; frameMain])
    EmptyString (Some entryVmod).

(** A finding in the standard library without a found version. *)
Definition unversioned : findingSummary :=
  mkFindingSummary
    (mkFinding "GO-0000-0002" EmptyString
       [mkFrame "stdlib" EmptyString "net/http" "http.Vuln2" None])
    EmptyString (Some entryHTTP).

(** A progress message that holds a style code of its own. *)
Definition boldProgress : list event :=
  [EvProgress (mkProgress ("Scanning " ++ sgr "1" ++ "your code" ++ sgr "0" ++ "..."))].

(** The line [Config] writes, as text. *)
Definition configText {pkg : ScanPackage} (config : Config) : string :=
  "Using "
  ++ (if isEmpty (GoVersion config) then EmptyString
      else GoVersion config ++ " and ")
  ++ (if isEmpty (ScannerName config) then EmptyString
      else ScannerName config
           ++ (if isEmpty (ScannerVersion config) then EmptyString
               else "@" ++ ScannerVersion config)
           ++ " with ")
  ++ "vulnerability data from " ++ DB config
  ++ match DBLastModified config with
     | Some t => " (last modified " ++ timeString t ++ ")"
     | None => EmptyString
     end
  ++ "." ++ nl ++ nl.

Definition sampleConfig : Config :=
  mkConfig "go1.18" "govulncheck" "v0.0.0" "testdata/vulndb-v1" (Some (mkTime 1609459200)).

(** [m] returns the error the handler holds when it ends. *)
Definition EndsErr {W} (m : M W (option error)) : Prop :=
  forall h r h', m h = Some (r, h') -> r = err h'.

(** The calls to [Config] and [Progress] among the producer's calls. *)
Definition writesOf (evs : list event) : list event :=
  filter (fun ev => match ev with
                    | EvConfig _ | EvProgress _ => true
                    | _ => false
                    end) evs.

Definition submittedOf (evs : list event) : list Finding :=
  flat_map (fun ev => match ev with
                      | EvFinding f => [f]
                      | _ => []
                      end) evs.

(** ** The command-line configuration (flags.go) *)

Module Flags.

(** The errors of flags.go: the sentinels of the package, the errors of
    [fmt.Errorf] with their format and operands, and the error of a module
    query that does not parse. *)
Inductive flagError :=
  | errHelp
  | errUsage
  | errNoBinaryFlag
  | errQuery (reason : string)
  | Errorf (format : string) (operands : list operand)
with operand :=
  | opString (s : string)
  | opError (e : flagError).

(** [type config struct]; [scanLevel] stands for the field [ScanLevel] of the
    embedded [govulncheck.Config]. *)
Record config := mkFlagsConfig {
  scanLevel : string;
  patterns : list string;
  mode : string;
  db : string;
  json : bool;
  dir : string;
  tags : list string;
  test : bool;
  show : list string;
  env : list string
}.

Definition modeBinary : string := "binary".
Definition modeSource : string := "source".
Definition modeConvert : string := "convert".
Definition modeQuery : string := "query".

(** [var supportedModes = map[string]bool{...}]. *)
Definition supportedModes : list (string * bool) :=
  [(modeSource, true); (modeBinary, true); (modeConvert, true); (modeQuery, true)].

(** [_, ok := m[key]]. *)
Definition hasKey (m : list (string * bool)) (key : string) : bool :=
  existsb (fun kv => (fst kv =? key)%string) m.

(** What [os.Stat] answers for a path. *)
Inductive statResult :=
  | statInfo (isDir : bool)
  | statNotExist
  | statOtherError.

(** The file system, and [parseModuleQuery] of the package, of which
    [validateConfig] reads the error only. *)
Class Env := {
  osStat : string -> statResult;
  parseModuleQuery : string -> option flagError
}.

Section Validate.

Context {environment : Env}.

Definition isFile (path : string) : bool :=
  match osStat path with
  | statInfo isDir => negb isDir
  | _ => false
  end.

Definition fileExists (path : string) : bool :=
  match osStat path with
  | statInfo _ => true
  | statNotExist => false
  | statOtherError => true
  end.

(** The loop of query mode: the first pattern that does not parse. *)
Fixpoint query_loop (ps : list string) : option flagError :=
  match ps with
  | [] => None
  | pattern :: rest =>
      match parseModuleQuery pattern with
      | Some err => Some err
      | None => query_loop rest
      end
  end.

(** The [switch cfg.mode] of [validateConfig]: [Some e] returns [e], [None]
    falls out of the switch. *)
Definition validateMode (cfg : config) : option flagError :=
  if (mode cfg =? modeSource)%string then
    match patterns cfg with
    | [p] =>
        if isFile p
        then Some (Errorf ("%q is a file." ++ nl ++ nl ++ "%v")
                     [opString p; opError errNoBinaryFlag])
        else None
    | _ => None
    end
  else if (mode cfg =? modeBinary)%string then
    if test cfg
    then Some (Errorf "the -test flag is not supported in binary mode" [])
    else if 0 <? Z.of_nat (length (tags cfg))
    then Some (Errorf "the -tags flag is not supported in binary mode" [])
    else
      match patterns cfg with
      | [p] =>
          if negb (isFile p)
          then Some (Errorf "%q is not a file" [opString p])
          else None
      | _ => Some (Errorf "only 1 binary can be analyzed at a time" [])
      end
  else if (mode cfg =? modeConvert)%string then
    if negb (Z.of_nat (length (patterns cfg)) =? 0)
    then Some (Errorf "patterns are not accepted in convert mode" [])
    else if negb (isEmpty (dir cfg))
    then Some (Errorf "the -C flag is not supported in convert mode" [])
    else if test cfg
    then Some (Errorf "the -test flag is not supported in convert mode" [])
    else if 0 <? Z.of_nat (length (tags cfg))
    then Some (Errorf "the -tags flag is not supported in convert mode" [])
    else None
  else if (mode cfg =? modeQuery)%string then
    if test cfg
    then Some (Errorf "the -test flag is not supported in query mode" [])
    else if 0 <? Z.of_nat (length (tags cfg))
    then Some (Errorf "the -tags flag is not supported in query mode" [])
    else if negb (json cfg)
    then Some (Errorf "the -json flag must be set in query mode" [])
    else query_loop (patterns cfg)
  else None.

Definition validateConfig (cfg : config) : option flagError :=
  if negb (hasKey supportedModes (mode cfg))
  then Some (Errorf "%q is not a valid mode" [opString (mode cfg)])
  else
    match validateMode cfg with
    | Some e => Some e
    | None =>
        if json cfg && (0 <? Z.of_nat (length (show cfg)))
        then Some (Errorf "the -show flag is not supported for JSON output" [])
        else None
    end.

End Validate.

(** [strings.Split(s, ",")]: the substrings between the commas. *)
Fixpoint splitComma (s : string) : list string :=
  match s with
  | EmptyString => [EmptyString]
  | String c r =>
      if (c =? ",")%char then EmptyString :: splitComma r
      else
        match splitComma r with
        | [] => [String c EmptyString]
        | f :: fs => String c f :: fs
        end
  end.

(** [showFlag.Set]: the flag after the call, and the error returned. *)
Definition Set_ (v : list string) (s : string) : list string * option flagError :=
  ((v ++ splitComma s)%list, None).

End Flags.

(** The configuration with another mode. *)
Definition withMode (cfg : Flags.config) (m : string) : Flags.config :=
  Flags.mkFlagsConfig (Flags.scanLevel cfg) (Flags.patterns cfg) m (Flags.db cfg)
    (Flags.json cfg) (Flags.dir cfg) (Flags.tags cfg) (Flags.test cfg)
    (Flags.show cfg) (Flags.env cfg).

(** The configurations [validateConfig] accepts. *)
Definition accepted {environment : Flags.Env} (cfg : Flags.config) : Prop :=
  (Flags.json cfg = true -> Flags.show cfg = []) /\
  ((Flags.mode cfg = Flags.modeSource /\
    forall p, Flags.patterns cfg = [p] -> Flags.isFile p = false)
   \/ (Flags.mode cfg = Flags.modeBinary /\ Flags.test cfg = false /\
       Flags.tags cfg = [] /\
       exists p, Flags.patterns cfg = [p] /\ Flags.isFile p = true)
   \/ (Flags.mode cfg = Flags.modeConvert /\ Flags.patterns cfg = [] /\
       Flags.dir cfg = EmptyString /\ Flags.test cfg = false /\
       Flags.tags cfg = [])
   \/ (Flags.mode cfg = Flags.modeQuery /\ Flags.test cfg = false /\
       Flags.tags cfg = [] /\ Flags.json cfg = true /\
       Forall (fun p => Flags.parseModuleQuery p = None) (Flags.patterns cfg))).

Definition noComma (s : string) : Prop :=
  ~ In ","%char (list_ascii_of_string s).

(** A file system with one file and one directory. *)
Definition sampleEnv : Flags.Env := {|
  Flags.osStat := fun path =>
    if (path =? "./app")%string then Flags.statInfo false
    else if (path =? "./cmd")%string then Flags.statInfo true
    else Flags.statNotExist;
  Flags.parseModuleQuery := fun pattern =>
    if isEmpty pattern then Some (Flags.errQuery "empty query") else None
|}.

Definition binaryConfig : Flags.config :=
  Flags.mkFlagsConfig "symbol" ["./app"] "binary" "https://vuln.go.dev"
    false EmptyString [] false ["traces"] [].

(** * Proofs *)

(** ** Strings *)

Lemma append_nil_r (s : string) : s ++ EmptyString = s.
Proof. induction s as [|c s IH]; simpl; [reflexivity | now rewrite IH]. Qed.

Lemma append_assoc (a b c : string) : (a ++ b) ++ c = a ++ (b ++ c).
Proof. induction a as [|x a IH]; simpl; [reflexivity | now rewrite IH]. Qed.

Lemma length_append (a b : string) :
  String.length (a ++ b) = (String.length a + String.length b)%nat.
Proof. induction a as [|x a IH]; simpl; [reflexivity | now rewrite IH]. Qed.

Lemma len_append (a b : string) : len (a ++ b) = len a + len b.
Proof. unfold len. rewrite length_append. lia. Qed.

Lemma len_nonneg (s : string) : 0 <= len s.
Proof. unfold len. lia. Qed.

Lemma len_pos (s : string) : s <> EmptyString -> 0 < len s.
Proof. destruct s; [congruence | unfold len; simpl; lia]. Qed.

Lemma cat_app (l1 l2 : list string) : cat (l1 ++ l2) = cat l1 ++ cat l2.
Proof.
  induction l1 as [|s l1 IH]; simpl; [reflexivity|].
  now rewrite IH, append_assoc.
Qed.

Lemma isEmpty_true (s : string) : isEmpty s = true -> s = EmptyString.
Proof. destruct s; simpl; congruence. Qed.

Lemma isEmpty_false (s : string) : isEmpty s = false -> s <> EmptyString.
Proof. destruct s; simpl; congruence. Qed.

Ltac zbool :=
  repeat match goal with
  | H : (_ && _) = true |- _ => apply andb_true_iff in H; destruct H
  | H : (_ || _) = true |- _ => apply orb_true_iff in H; destruct H
  | H : (_ && _) = false |- _ => apply andb_false_iff in H; destruct H
  | H : (_ || _) = false |- _ => apply orb_false_iff in H; destruct H
  | H : (_ =? _) = true |- _ => apply Z.eqb_eq in H
  | H : (_ =? _) = false |- _ => apply Z.eqb_neq in H
  | H : (_ <=? _) = true |- _ => apply Z.leb_le in H
  | H : (_ <=? _) = false |- _ => apply Z.leb_gt in H
  | H : (_ <? _) = true |- _ => apply Z.ltb_lt in H
  | H : (_ <? _) = false |- _ => apply Z.ltb_ge in H
  end.

(** One test of the goal at a time, closing the branches that the
    arithmetic excludes. *)
Ltac split_if :=
  match goal with
  | |- context [if ?b then _ else _] =>
      let E := fresh "E" in
      destruct b eqn:E; zbool; try lia; try congruence; try reflexivity
  end.

Lemma spaceRune_le3 b1 o2 o3 : (spaceRune b1 o2 o3 <= 3)%nat.
Proof. unfold spaceRune. destruct o2, o3; repeat split_if. Qed.

(** The second byte matters only when it is a continuation byte. *)
Lemma spaceRune_fresh2 b1 b2 o3 :
  b2 < 128 \/ 191 < b2 ->
  spaceRune b1 (Some b2) o3 = spaceRune b1 None None.
Proof.
  intros F. unfold spaceRune. destruct o3; repeat split_if.
Qed.

(** And so does the third. *)
Lemma spaceRune_fresh3 b1 b2 b3 :
  b3 < 128 \/ 191 < b3 ->
  spaceRune b1 (Some b2) (Some b3) = spaceRune b1 (Some b2) None.
Proof.
  intros F. unfold spaceRune. repeat split_if.
Qed.

Lemma spaceRune_none b1 o3 : spaceRune b1 None o3 = spaceRune b1 None None.
Proof. reflexivity. Qed.

(** The first byte of a white-space rune is not a continuation byte. *)
Lemma spaceRune_first b1 o2 o3 :
  spaceRune b1 o2 o3 <> 0%nat -> b1 < 128 \/ 191 < b1.
Proof.
  unfold spaceRune. destruct o2, o3; repeat split_if.
Qed.

Lemma spaceWidth_le (s : string) : (spaceWidth s <= String.length s)%nat.
Proof.
  unfold spaceWidth.
  destruct s as [|c1 [|c2 [|c3 r]]]; simpl; unfold spaceRune; repeat split_if;
    simpl; lia.
Qed.

Lemma spaceWidth_startsFresh (s : string) :
  spaceWidth s <> 0%nat -> startsFresh s.
Proof.
  unfold spaceWidth. destruct s as [|c1 r]; simpl; auto.
  apply spaceRune_first.
Qed.

(** A white-space rune that starts [a] starts [a ++ b] as well. *)
Lemma spaceWidth_app (a b : string) :
  spaceWidth a <> 0%nat -> spaceWidth (a ++ b) = spaceWidth a.
Proof.
  unfold spaceWidth.
  destruct a as [|c1 [|c2 [|c3 r]]]; simpl; try congruence.
  - unfold spaceRune. destruct (firstByte b), (firstByte (dropByte b));
      repeat split_if.
  - unfold spaceRune. destruct (firstByte b); repeat split_if.
Qed.

(** Whether white space starts a string does not depend on fresh text
    after it. *)
Lemma spaceWidth_fresh_nil c (f r : string) :
  startsFresh r -> spaceWidth (String c f ++ r) = spaceWidth (String c f).
Proof.
  intros F. unfold spaceWidth.
  destruct f as [|c2 [|c3 f]]; simpl; try reflexivity.
  - destruct r as [|x r]; simpl in *; [reflexivity|].
    apply spaceRune_fresh2; exact F.
  - destruct r as [|x r]; simpl in *; [reflexivity|].
    apply spaceRune_fresh3; exact F.
Qed.

Lemma spaceWidth_fresh c (f r1 r2 : string) :
  startsFresh r1 -> startsFresh r2 ->
  spaceWidth (String c f ++ r1) = 0%nat -> spaceWidth (String c f ++ r2) = 0%nat.
Proof.
  intros F1 F2. rewrite !spaceWidth_fresh_nil by assumption. auto.
Qed.

Lemma cleanIn_fresh (f r1 r2 : string) :
  startsFresh r1 -> startsFresh r2 -> cleanIn f r1 -> cleanIn f r2.
Proof.
  intros F1 F2. induction f as [|c f IH]; simpl; auto.
  intros [H1 H2]. split; [|auto].
  exact (spaceWidth_fresh c f r1 r2 F1 F2 H1).
Qed.

Lemma cleanIn_snoc (cur : string) c (r : string) :
  cleanIn cur (String c r) -> spaceWidth (String c r) = 0%nat ->
  cleanIn (cur ++ String c EmptyString) r.
Proof.
  induction cur as [|x cur IH]; simpl.
  - intros _ H. split; auto.
  - intros [H1 H2] H. split; auto.
    rewrite append_assoc. simpl. exact H1.
Qed.

Lemma closeField_nonempty (cur : string) :
  cur <> EmptyString -> closeField cur = [cur].
Proof. destruct cur; [congruence | reflexivity]. Qed.

Lemma append_snoc_nonempty (cur : string) c :
  cur ++ String c EmptyString <> EmptyString.
Proof. destruct cur; simpl; congruence. Qed.

(** Every field that the scan closes is a word. *)
Lemma fieldsFrom_words (s : string) :
  forall skip cur,
    (skip <> 0%nat -> cur = EmptyString) ->
    (skip = 0%nat -> cleanIn cur s) ->
    Forall isWord (fieldsFrom s skip cur).
Proof.
  induction s as [|c r IH]; intros skip cur Hs Hc; simpl.
  - destruct cur as [|x cur]; simpl; [constructor|].
    constructor; [|constructor].
    split; [congruence|].
    intros rest F.
    assert (H0 : skip = 0%nat) by (destruct skip; [reflexivity | discriminate (Hs (Nat.neq_succ_0 _))]).
    apply cleanIn_fresh with (r1 := EmptyString); simpl; auto.
    apply (Hc H0).
  - destruct skip as [|k].
    + destruct (spaceWidth (String c r)) as [|k] eqn:E.
      * apply IH; [congruence|]. intros _.
        apply cleanIn_snoc; auto.
      * apply Forall_app. split.
        -- destruct cur as [|x cur]; simpl; [constructor|].
           constructor; [|constructor].
           split; [congruence|].
           intros rest F.
           apply cleanIn_fresh with (r1 := String c r); auto.
           apply spaceWidth_startsFresh. congruence.
        -- apply IH; [reflexivity|]. intros _. exact I.
    + rewrite (Hs (Nat.neq_succ_0 _)).
      apply IH; [reflexivity|]. intros _. exact I.
Qed.

Lemma Fields_words (s : string) : Forall isWord (Fields s).
Proof.
  apply fieldsFrom_words; [congruence|]. intros _. exact I.
Qed.

(** A word, then fresh text: the scan takes the word into the field in
    progress. *)
Lemma fieldsFrom_word (f rest cur : string) :
  cleanIn f rest ->
  fieldsFrom (f ++ rest) 0 cur = fieldsFrom rest 0 (cur ++ f).
Proof.
  revert cur. induction f as [|c f IH]; intros cur H; simpl.
  - now rewrite append_nil_r.
  - destruct H as [H1 H2]. simpl in H1. rewrite H1.
    rewrite IH by assumption. rewrite append_assoc. reflexivity.
Qed.

(** Skipping the rest of a white-space rune. *)
Lemma fieldsFrom_skip (a rest : string) (cur : string) :
  fieldsFrom (a ++ rest) (String.length a) cur = fieldsFrom rest 0 cur.
Proof.
  induction a as [|c a IH]; simpl; [|exact IH].
  destruct rest; reflexivity.
Qed.

Lemma fieldsFrom_cur_nonempty (s : string) :
  forall skip cur, cur <> EmptyString -> fieldsFrom s skip cur <> [].
Proof.
  induction s as [|c r IH]; intros skip cur H; simpl.
  - rewrite closeField_nonempty by assumption. discriminate.
  - destruct skip as [|k]; [|auto].
    destruct (spaceWidth (String c r)).
    + apply IH. apply append_snoc_nonempty.
    + rewrite closeField_nonempty by assumption. discriminate.
Qed.

Lemma fieldsFrom_blank (a : string) :
  forall skip rest,
    (skip <= String.length a)%nat ->
    fieldsFrom a skip EmptyString = [] ->
    fieldsFrom (a ++ rest) skip EmptyString = fieldsFrom rest 0 EmptyString.
Proof.
  induction a as [|c a IH]; intros skip rest Hk H.
  - simpl in Hk. assert (skip = 0%nat) by lia. subst. simpl.
    destruct rest; reflexivity.
  - simpl in *. destruct skip as [|k].
    + destruct (spaceWidth (String c a)) as [|k] eqn:E.
      * exfalso. revert H. apply fieldsFrom_cur_nonempty. discriminate.
      * assert (E' : spaceWidth (String c (a ++ rest)) = S k).
        { change (String c (a ++ rest)) with (String c a ++ rest).
          rewrite spaceWidth_app; congruence. }
        rewrite E'. simpl in *.
        apply IH; [|exact H].
        pose proof (spaceWidth_le (String c a)) as L. rewrite E in L.
        simpl in L. lia.
    + apply IH; [lia | exact H].
Qed.

Lemma Fields_blank_app (a rest : string) :
  blank a -> Fields (a ++ rest) = Fields rest.
Proof.
  intros H. apply fieldsFrom_blank; [lia | exact H].
Qed.

Lemma sepStart_fresh (rest : string) : sepStart rest -> startsFresh rest.
Proof.
  intros [->|H]; [exact I | now apply spaceWidth_startsFresh].
Qed.

Lemma fieldsFrom_sep (rest cur : string) :
  sepStart rest -> cur <> EmptyString ->
  fieldsFrom rest 0 cur = cur :: fieldsFrom rest 0 EmptyString.
Proof.
  intros [->|H] Hc.
  - simpl. now rewrite closeField_nonempty.
  - destruct rest as [|c r]; [now elim H|].
    simpl. destruct (spaceWidth (String c r)); [now elim H|].
    now rewrite closeField_nonempty.
Qed.

Lemma Fields_word_sep (f rest : string) :
  isWord f -> sepStart rest -> Fields (f ++ rest) = f :: Fields rest.
Proof.
  intros [Hne Hcl] Hs. unfold Fields.
  rewrite fieldsFrom_word by (apply Hcl, sepStart_fresh, Hs).
  simpl. now apply fieldsFrom_sep.
Qed.

Lemma blank_space : blank " ".
Proof. reflexivity. Qed.

Lemma blank_nl : blank nl.
Proof. reflexivity. Qed.

Lemma sepStart_space (r : string) : sepStart (" " ++ r).
Proof. right. simpl. discriminate. Qed.

Lemma sepStart_nl (r : string) : sepStart (nl ++ r).
Proof. right. simpl. discriminate. Qed.

Lemma Fields_line (l : list string) (rest : string) :
  Forall isWord l -> sepStart rest ->
  Fields (join " " l ++ rest) = (l ++ Fields rest)%list.
Proof.
  intros Hw Hs. induction Hw as [|f l Hf Hl IH]; [reflexivity|].
  destruct l as [|g l].
  - simpl. now apply Fields_word_sep.
  - change (join " " (f :: g :: l)) with (f ++ " " ++ join " " (g :: l)).
    rewrite !append_assoc.
    rewrite Fields_word_sep by (auto using sepStart_space).
    rewrite (Fields_blank_app " ") by exact blank_space.
    rewrite IH. reflexivity.
Qed.

(** The words of wrapped text are the words of its lines. *)
Lemma Fields_renderLines (indent : string) (lines : list (list string)) :
  blank indent -> Forall (Forall isWord) lines ->
  Fields (renderLines indent lines) = concat lines.
Proof.
  intros Hb Hw. unfold renderLines.
  induction Hw as [|l ls Hl Hls IH]; [reflexivity|].
  destruct ls as [|l2 ls].
  - simpl. unfold renderLine.
    rewrite Fields_blank_app by assumption.
    rewrite <- (append_nil_r (join " " l)).
    rewrite Fields_line by (auto; now left).
    reflexivity.
  - change (join nl (map (renderLine indent) (l :: l2 :: ls)))
      with (renderLine indent l ++ nl ++ join nl (map (renderLine indent) (l2 :: ls))).
    unfold renderLine at 1. rewrite append_assoc.
    rewrite Fields_blank_app by assumption.
    rewrite Fields_line by (auto using sepStart_nl).
    rewrite (Fields_blank_app nl) by exact blank_nl.
    rewrite IH. reflexivity.
Qed.

(** ** Greedy filling *)
Lemma join_snoc (sep : string) (l : list string) (f : string) :
  l <> [] -> join sep (l ++ [f]) = join sep l ++ sep ++ f.
Proof.
  induction l as [|a l IH]; [congruence|]. intros _.
  destruct l as [|b l].
  - reflexivity.
  - change (join sep ((a :: b :: l) ++ [f]))
      with (a ++ sep ++ join sep ((b :: l) ++ [f])).
    rewrite IH by discriminate.
    change (join sep (a :: b :: l)) with (a ++ sep ++ join sep (b :: l)).
    now rewrite !append_assoc.
Qed.

Lemma renderLine_snoc (indent : string) (l : list string) (f : string) :
  l <> [] -> renderLine indent (l ++ [f]) = renderLine indent l ++ " " ++ f.
Proof.
  intros H. unfold renderLine. rewrite join_snoc by assumption.
  now rewrite append_assoc.
Qed.

Lemma fillLines_concat indent maxWidth fields :
  forall cur w,
    concat (fillLines indent maxWidth cur w fields) = (cur ++ fields)%list.
Proof.
  induction fields as [|f rest IH]; intros cur w; simpl.
  - reflexivity.
  - destruct (maxWidth <? w + len f + 1); simpl; rewrite IH.
    + reflexivity.
    + now rewrite <- app_assoc.
Qed.

Lemma wrapLines_concat indent maxWidth fields :
  concat (wrapLines indent maxWidth fields) = fields.
Proof.
  destruct fields as [|f rest]; [reflexivity|].
  simpl. now rewrite fillLines_concat.
Qed.

Lemma fillLines_fits indent maxWidth fields :
  forall cur w,
    cur <> [] -> w = len (renderLine indent cur) ->
    (w <= maxWidth \/ exists f, cur = [f]) ->
    Forall (lineFits indent maxWidth) (fillLines indent maxWidth cur w fields).
Proof.
  assert (Hfit : forall cur w, cur <> [] -> w = len (renderLine indent cur) ->
            (w <= maxWidth \/ exists f, cur = [f]) -> lineFits indent maxWidth cur).
  { intros cur w Hne Hw Hor. split; [assumption|].
    destruct (Z_le_gt_dec w maxWidth) as [L|G]; [left; lia|].
    destruct Hor as [L|[f Hf]]; [lia|]. right. exists f. split; [assumption|].
    subst cur. unfold renderLine in Hw. simpl in Hw. rewrite len_append in Hw. lia. }
  induction fields as [|f rest IH]; intros cur w Hne Hw Hor; simpl.
  - constructor; [|constructor]. eapply Hfit; eauto.
  - destruct (maxWidth <? w + len f + 1) eqn:E.
    + constructor; [eapply Hfit; eauto|].
      apply IH; [discriminate | | right; eauto].
      unfold renderLine. simpl. now rewrite len_append.
    + apply Z.ltb_ge in E. apply IH.
      * destruct cur; discriminate.
      * rewrite renderLine_snoc by assumption.
        rewrite !len_append. change (len " ") with 1. lia.
      * left. lia.
Qed.

Lemma wrapLines_fits indent maxWidth fields :
  Forall (lineFits indent maxWidth) (wrapLines indent maxWidth fields).
Proof.
  destruct fields as [|f rest]; [constructor|].
  simpl. apply fillLines_fits; [discriminate | | right; eauto].
  unfold renderLine. simpl. now rewrite len_append.
Qed.

Lemma concat_Forall {A} (P : A -> Prop) (ls : list (list A)) :
  Forall P (concat ls) -> Forall (Forall P) ls.
Proof.
  induction ls as [|l ls IH]; simpl; [constructor|].
  intros H. apply Forall_app in H. destruct H. constructor; auto.
Qed.

Lemma wrapLines_words indent maxWidth (s : string) :
  Forall (Forall isWord) (wrapLines indent maxWidth (Fields s)).
Proof.
  apply concat_Forall. rewrite wrapLines_concat. apply Fields_words.
Qed.

Lemma emit_nil h : emit h EmptyString = h.
Proof. destruct h. unfold emit, set_w_err. simpl. now rewrite append_nil_r. Qed.

Lemma emit_emit h a b : emit (emit h a) b = emit h (a ++ b).
Proof. unfold emit, set_w_err. simpl. now rewrite append_assoc. Qed.

Lemma render_app c p q : render c (p ++ q) = render c p ++ render c q.
Proof. unfold render. now rewrite map_app, cat_app. Qed.

Lemma render_nil c : render c [] = EmptyString.
Proof. reflexivity. Qed.

Section Buffer.

Context {pkg : ScanPackage}.

Lemma Emits_ret {A} c tr (a : A) : Emits c tr (ret a) a [].
Proof. intros h _ _ _. unfold ret. now rewrite render_nil, emit_nil. Qed.

Lemma Emits_bind {A B} c tr (m : M string A) (k : A -> M string B) a b p q :
  Emits c tr m a p -> Emits c tr (k a) b q -> Emits c tr (bind m k) b (p ++ q).
Proof.
  intros Hm Hk h He Hc Ht. unfold bind. rewrite (Hm h He Hc Ht).
  rewrite (Hk (emit h (render c p))) by assumption.
  now rewrite emit_emit, render_app.
Qed.

Lemma Emits_eq {A} c tr (m : M string A) a p q :
  Emits c tr m a p -> render c p = render c q -> Emits c tr m a q.
Proof. intros H E h He Hc Ht. rewrite <- E. now apply H. Qed.

Lemma Emits_if {A} c tr (b : bool) (m1 m2 : M string A) a1 a2 p1 p2 :
  Emits c tr m1 a1 p1 -> Emits c tr m2 a2 p2 ->
  Emits c tr (if b then m1 else m2) (if b then a1 else a2) (if b then p1 else p2).
Proof. destruct b; auto. Qed.

Lemma Emits_if_same {A} c tr (b : bool) (m1 m2 : M string A) a p1 p2 :
  Emits c tr m1 a p1 -> Emits c tr m2 a p2 ->
  Emits c tr (if b then m1 else m2) a (if b then p1 else p2).
Proof. destruct b; auto. Qed.

Lemma Emits_getShowColor {B} c tr (k : bool -> M string B) b p :
  Emits c tr (k c) b p -> Emits c tr (bind getShowColor k) b p.
Proof.
  intros H h He Hc Ht. unfold bind, getShowColor. rewrite Hc. now apply H.
Qed.

Lemma Emits_getShowTraces {B} c tr (k : bool -> M string B) b p :
  Emits c tr (k tr) b p -> Emits c tr (bind getShowTraces k) b p.
Proof.
  intros H h He Hc Ht. unfold bind, getShowTraces. rewrite Ht. now apply H.
Qed.

Lemma Emits_index0 {A B} c tr (x : A) (l : list A) (k : A -> M string B) b p :
  Emits c tr (k x) b p -> Emits c tr (bind (index0 (x :: l)) k) b p.
Proof. intros H h He Hc Ht. unfold bind, index0, ret. now apply H. Qed.

Lemma Emits_deref {A B} c tr (x : A) (k : A -> M string B) b p :
  Emits c tr (k x) b p -> Emits c tr (bind (deref (Some x)) k) b p.
Proof. intros H h He Hc Ht. unfold bind, deref, ret. now apply H. Qed.

Lemma print_loop_buffer (values : list value) :
  forall total (h : TextHandler string), err h = None ->
    print_loop values total h
    = Some (total + len (printed values), emit h (printed values)).
Proof.
  induction values as [|v rest IH]; intros total h He; simpl.
  - unfold ret, printed. simpl. rewrite emit_nil. f_equal. f_equal.
    change (len EmptyString) with 0. lia.
  - rewrite He. unfold Write, Buffer.
    rewrite IH by reflexivity.
    unfold printed. simpl. rewrite len_append.
    f_equal. f_equal; [lia|].
    unfold emit, set_w_err. simpl. now rewrite He, append_assoc.
Qed.

Lemma render_texts c (l : list string) : render c (map Text l) = cat l.
Proof. unfold render. rewrite map_map. simpl. now rewrite map_id. Qed.

Lemma render_codes (l : list string) : render true (map Code l) = cat l.
Proof. unfold render. rewrite map_map. simpl. now rewrite map_id. Qed.

Lemma render_codes_off (l : list string) : render false (map Code l) = EmptyString.
Proof. unfold render. induction l; simpl; auto. Qed.

Lemma Emits_print c tr (values : list value) :
  Emits c tr (print values) (len (printed values))
    (map (fun v => Text (Fprint v)) values).
Proof.
  intros h He _ _. unfold print. rewrite print_loop_buffer by assumption.
  f_equal. f_equal. f_equal.
  unfold printed, render. rewrite map_map. reflexivity.
Qed.

Lemma printed_strings (l : list string) : printed (map VString l) = cat l.
Proof. unfold printed. rewrite map_map. simpl. now rewrite map_id. Qed.

Lemma Emits_style c tr st (values : list value) :
  Emits c tr (style st values) tt (styled st values).
Proof.
  unfold style. apply Emits_getShowColor.
  destruct c.
  - eapply Emits_eq.
    + eapply Emits_bind; [apply Emits_print|].
      eapply Emits_bind; [apply Emits_print|].
      apply Emits_getShowColor.
      apply Emits_if_same.
      * eapply Emits_bind; [apply Emits_print | apply Emits_ret].
      * apply Emits_ret.
    + unfold styled. rewrite !render_app. f_equal.
      * rewrite map_map. simpl. unfold render. now rewrite !map_map.
      * f_equal. destruct values; reflexivity.
  - eapply Emits_eq.
    + eapply Emits_bind; [apply Emits_ret|].
      eapply Emits_bind; [apply Emits_print|].
      apply Emits_getShowColor. simpl. apply Emits_ret.
    + unfold styled. rewrite !render_app, render_codes_off.
      destruct values; simpl; rewrite ?append_nil_r; reflexivity.
Qed.

End Buffer.

Section BufferOps.

Context {pkg : ScanPackage}.

Lemma printed_one (s : string) : printed [VString s] = s.
Proof. unfold printed. simpl. apply append_nil_r. Qed.

Lemma fillLines_nonempty indent maxWidth fields :
  forall cur w, fillLines indent maxWidth cur w fields <> [].
Proof.
  induction fields as [|f rest IH]; intros cur w; simpl; [discriminate|].
  destruct (maxWidth <? w + len f + 1); [discriminate | apply IH].
Qed.

Lemma renderLines_cons indent (l : list string) (ls : list (list string)) :
  ls <> [] ->
  renderLines indent (l :: ls) = renderLine indent l ++ nl ++ renderLines indent ls.
Proof. destruct ls; [congruence | reflexivity]. Qed.

(** The loop of [wrap], once a line is in progress. *)
Lemma wrap_loop_emits c tr indent maxWidth (fields : list string) :
  forall cur w,
    cur <> [] -> w = len (renderLine indent cur) -> 0 < w ->
    Forall (fun f => f <> EmptyString) fields ->
    exists t,
      Emits c tr (wrap_loop indent fields maxWidth w) tt [Text t] /\
      renderLines indent (fillLines indent maxWidth cur w fields)
      = renderLine indent cur ++ t.
Proof.
  induction fields as [|f rest IH]; intros cur w Hne Hw Hpos Hf.
  - exists EmptyString. split.
    + eapply Emits_eq; [apply Emits_ret | reflexivity].
    + simpl. unfold renderLines. simpl. now rewrite append_nil_r.
  - apply Forall_cons_iff in Hf; destruct Hf as [Hf1 Hf2].
    pose proof (len_pos f Hf1) as Lf. pose proof (len_nonneg indent) as Li.
    simpl.
    replace (0 <? w) with true by (symmetry; apply Z.ltb_lt; lia).
    simpl.
    destruct (maxWidth <? w + len f + 1) eqn:E.
    + destruct (IH [f] (len indent + len f)) as [t [Ht Hr]];
        [discriminate | unfold renderLine; simpl; now rewrite len_append
         | lia | assumption |].
      exists (nl ++ indent ++ f ++ t). split.
      * eapply Emits_eq.
        -- eapply Emits_bind;
             [eapply Emits_bind; [apply Emits_print | apply Emits_ret]|].
           simpl.
           eapply Emits_bind; [apply Emits_print|].
           eapply Emits_bind; [apply Emits_print|].
           rewrite !printed_one. exact Ht.
        -- unfold render. simpl. rewrite !append_nil_r.
           now rewrite ?append_assoc.
      * rewrite renderLines_cons by apply fillLines_nonempty.
        rewrite Hr. unfold renderLine. simpl. now rewrite ?append_assoc.
    + destruct (IH (cur ++ [f])%list (w + 1 + len f)) as [t [Ht Hr]];
        [destruct cur; discriminate
         | rewrite renderLine_snoc by assumption; rewrite !len_append;
           change (len " ") with 1; lia
         | lia | assumption |].
      exists (" " ++ f ++ t). split.
      * eapply Emits_eq.
        -- eapply Emits_bind; [apply Emits_ret|].
           replace (w =? 0) with false by (symmetry; apply Z.eqb_neq; lia).
           eapply Emits_bind;
             [eapply Emits_bind; [apply Emits_print | apply Emits_ret]|].
           eapply Emits_bind; [apply Emits_print|].
           rewrite !printed_one. change (len " ") with 1. exact Ht.
        -- unfold render. simpl. rewrite !append_nil_r.
           now rewrite ?append_assoc.
      * rewrite Hr. rewrite renderLine_snoc by assumption.
        now rewrite ?append_assoc.
Qed.

Lemma isWord_nonempty (l : list string) :
  Forall isWord l -> Forall (fun f => f <> EmptyString) l.
Proof. apply Forall_impl. now intros f [H _]. Qed.

Lemma Emits_wrap c tr (indent s : string) (maxWidth : Z) :
  Emits c tr (wrap indent s maxWidth) tt (wrapDoc indent s maxWidth).
Proof.
  unfold wrap, wrapDoc.
  pose proof (isWord_nonempty _ (Fields_words s)) as Hw.
  destruct (Fields s) as [|f rest].
  - eapply Emits_eq; [apply Emits_ret | reflexivity].
  - apply Forall_cons_iff in Hw; destruct Hw as [Hf1 Hf2].
    pose proof (len_pos f Hf1) as Lf. pose proof (len_nonneg indent) as Li.
    destruct (wrap_loop_emits c tr indent maxWidth rest [f] (len indent + len f))
      as [t [Ht Hr]];
      [discriminate | unfold renderLine; simpl; now rewrite len_append
       | lia | assumption |].
    simpl. eapply Emits_eq.
    + eapply Emits_bind; [apply Emits_ret|]. simpl.
      eapply Emits_bind; [apply Emits_print|].
      eapply Emits_bind; [apply Emits_print|].
      rewrite !printed_one. exact Ht.
    + rewrite Hr. unfold render, renderLine. simpl. rewrite !append_nil_r.
      now rewrite ?append_assoc.
Qed.

End BufferOps.

Ltac list_eq :=
  simpl; rewrite ?app_nil_r, <- ?app_assoc; simpl; reflexivity.

Ltac emits_step :=
  first
    [ apply Emits_ret
    | apply Emits_print
    | apply Emits_style
    | apply Emits_wrap
    | apply Emits_getShowColor
    | apply Emits_getShowTraces
    | apply Emits_index0
    | apply Emits_deref
    | eapply Emits_bind ].

Section BufferDocs.

Context {pkg : ScanPackage}.

Lemma Emits_eql {A} c tr (m : M string A) a p q :
  Emits c tr m a p -> p = q -> Emits c tr m a q.
Proof. intros H <-. exact H. Qed.

Lemma Emits_frames c tr (frames : list Frame) :
  Emits c tr (frames_loop frames) tt (flat_map frameDoc frames).
Proof.
  induction frames as [|t rest IH]; simpl.
  - apply Emits_ret.
  - eapply Emits_eql.
    + eapply Emits_bind; [apply Emits_print|].
      eapply Emits_bind.
      * instantiate (2 := match FramePosition t with Some _ => _ | None => _ end).
        instantiate (1 := match FramePosition t with
                          | Some pos => [Text (posToString pos); Text ": "]
                          | None => []
                          end).
        destruct (FramePosition t); [apply Emits_print | apply Emits_ret].
      * eapply Emits_bind; [apply Emits_print | exact IH].
    + unfold frameDoc. list_eq.
Qed.

Lemma Emits_traces_loop c tr (entries : list findingSummary) :
  forall i first,
    Forall (fun e => traceable tr e = true) entries ->
    Emits c tr (traces_loop entries i first) tt (tracesFrom tr i first entries).
Proof.
  induction entries as [|e rest IH]; intros i first Hw.
  - simpl. eapply Emits_eql; [apply Emits_ret|].
    unfold tracesFrom. simpl. now destruct first.
  - apply Forall_cons_iff in Hw. destruct Hw as [He Hr].
    simpl. unfold tracesFrom, shownFrom. simpl.
    destruct (isEmpty (Compact e)) eqn:E; simpl.
    + apply IH; assumption.
    + eapply Emits_eql.
      * eapply Emits_bind.
        { apply (Emits_if_same c tr first); [apply Emits_style | apply Emits_ret]. }
        eapply Emits_bind; [apply Emits_print|].
        apply Emits_getShowTraces.
        eapply Emits_bind; [|apply (IH (i + 1) false Hr)].
        instantiate (1 := traceBody tr e).
        unfold traceBody. destruct tr; simpl.
        -- unfold traceable in He. rewrite E in He. simpl in He.
           unfold hasTrace in He.
           destruct (Trace (finding e)) as [|t0 ts] eqn:Et; [discriminate|].
           apply Emits_index0.
           eapply Emits_eql;
             [eapply Emits_bind; [apply Emits_print | apply Emits_frames]
             | reflexivity].
        -- eapply Emits_eql; [eapply Emits_bind; [apply Emits_print | apply Emits_ret]|].
           list_eq.
      * unfold tracesFrom, traceLine, tracesHeader. simpl.
        destruct first; list_eq.
Qed.

Lemma Emits_traces c tr (entries : list findingSummary) :
  Forall (fun e => traceable tr e = true) entries ->
  Emits c tr (traces entries) tt (tracesDoc tr entries).
Proof.
  intros Hw. unfold traces. eapply Emits_eql.
  - apply Emits_traces_loop; assumption.
  - unfold tracesFrom, tracesDoc. destruct (shownFrom 0 entries); reflexivity.
Qed.

Lemma join_cons_cat (sep p : string) (rest : list string) :
  join sep (p :: rest) = p ++ cat (map (fun q => sep ++ q) rest).
Proof.
  revert p. induction rest as [|q rest IH]; intros p.
  - simpl. now rewrite append_nil_r.
  - change (join sep (p :: q :: rest)) with (p ++ sep ++ join sep (q :: rest)).
    rewrite IH. simpl. now rewrite ?append_assoc.
Qed.

Lemma Emits_platforms_loop c tr (ps : list string) :
  forall ip, 0 < ip ->
    Emits c tr (platforms_loop ps ip) tt
      [Text (cat (map (fun q => ", " ++ q) ps))].
Proof.
  induction ps as [|p rest IH]; intros ip Hip; simpl.
  - eapply Emits_eq; [apply Emits_ret | reflexivity].
  - replace (0 <? ip) with true by (symmetry; apply Z.ltb_lt; lia).
    eapply Emits_eq.
    + eapply Emits_bind; [apply Emits_print|].
      eapply Emits_bind; [apply Emits_print|].
      apply IH. lia.
    + unfold render. simpl. now rewrite ?append_nil_r, ?append_assoc.
Qed.

Lemma Emits_platforms c tr (ps : list string) :
  Emits c tr (platforms_loop ps 0) tt [Text (join ", " ps)].
Proof.
  destruct ps as [|p rest].
  - eapply Emits_eq; [apply Emits_ret | reflexivity].
  - rewrite join_cons_cat. simpl. eapply Emits_eq.
    + eapply Emits_bind; [apply Emits_ret|].
      eapply Emits_bind; [apply Emits_print|].
      apply Emits_platforms_loop. lia.
    + unfold render. simpl.
      now rewrite ?append_nil_r, ?append_assoc.
Qed.

End BufferDocs.

(** ** Grouping *)
Lemma firstSeen_In (k : string) (keys : list string) :
  In k (firstSeen keys) <-> In k keys.
Proof.
  induction keys as [|a keys IH]; simpl; [tauto|].
  rewrite filter_In, IH.
  destruct (String.eqb_spec k a) as [->|N]; simpl.
  - tauto.
  - split; [tauto|]. intros [E|H]; [congruence | auto].
Qed.

Lemma groupBy_nonempty key (fs : list findingSummary) :
  Forall (fun g => g <> []) (groupBy key fs).
Proof.
  unfold groupBy. apply Forall_forall. intros g Hg.
  apply in_map_iff in Hg. destruct Hg as [k [<- Hk]].
  apply (proj1 (firstSeen_In _ _)) in Hk. apply in_map_iff in Hk.
  destruct Hk as [f [Hf Hin]].
  intros E.
  assert (In f (filter (fun f0 => (key f0 =? k)%string) fs)) as H.
  { apply filter_In. split; [assumption|]. rewrite Hf. apply String.eqb_refl. }
  rewrite E in H. exact H.
Qed.

Lemma groupBy_Forall key (P : findingSummary -> Prop) (fs : list findingSummary) :
  Forall P fs -> Forall (Forall P) (groupBy key fs).
Proof.
  intros H. unfold groupBy. apply Forall_forall. intros g Hg.
  apply in_map_iff in Hg. destruct Hg as [k [<- _]].
  apply Forall_forall. intros f Hf. apply filter_In in Hf.
  rewrite Forall_forall in H. now apply H.
Qed.

Lemma firstSeen_NoDup (keys : list string) : NoDup (firstSeen keys).
Proof.
  induction keys as [|a keys IH]; simpl; [constructor|].
  constructor.
  - rewrite filter_In. intros [_ H]. rewrite String.eqb_refl in H. discriminate.
  - now apply NoDup_filter.
Qed.

(** A group holds the findings of one identity, all of them. *)
Lemma groupBy_In key (fs g : list findingSummary) :
  In g (groupBy key fs) ->
  exists k, In k (map key fs) /\ g = filter (fun f => (key f =? k)%string) fs.
Proof.
  unfold groupBy. intros Hg. apply in_map_iff in Hg.
  destruct Hg as [k [<- Hk]]. exists k. split; [|reflexivity].
  now apply (proj1 (firstSeen_In _ _)).
Qed.

Lemma isCalled_app (a b : list findingSummary) :
  isCalled (a ++ b) = isCalled a || isCalled b.
Proof. unfold isCalled. apply existsb_app. Qed.

Lemma isCalled_true (fs : list findingSummary) :
  isCalled fs = true <-> exists f, In f fs /\ Compact f <> EmptyString.
Proof.
  unfold isCalled. rewrite existsb_exists. split; intros [f [Hin H]]; exists f;
    (split; [assumption|]).
  - apply negb_true_iff in H. now apply isEmpty_false.
  - destruct (Compact f); [congruence | reflexivity].
Qed.

(** Some group is called exactly when some finding is. *)
Lemma isCalled_groupBy key (fs : list findingSummary) :
  existsb isCalled (groupBy key fs) = isCalled fs.
Proof.
  apply eq_true_iff_eq. rewrite existsb_exists, isCalled_true. split.
  - intros [g [Hg Hc]]. apply isCalled_true in Hc. destruct Hc as [f [Hf Hn]].
    apply groupBy_In in Hg. destruct Hg as [k [_ ->]].
    apply filter_In in Hf. exists f. tauto.
  - intros [f [Hf Hn]].
    exists (filter (fun f0 => (key f0 =? key f)%string) fs). split.
    + unfold groupBy. apply in_map_iff. exists (key f). split; [reflexivity|].
      apply (proj2 (firstSeen_In _ _)). now apply in_map.
    + apply isCalled_true. exists f. split; [|assumption].
      apply filter_In. split; [assumption | apply String.eqb_refl].
Qed.

Lemma ready_traceable full (f : findingSummary) :
  ready f = true -> traceable full f = true.
Proof.
  unfold ready, traceable. intros H. apply andb_true_iff in H. destruct H as [_ H].
  rewrite H. now rewrite !orb_true_r.
Qed.

Section BufferReport.

Context {pkg : ScanPackage}.

Lemma Emits_module_body c tr (m0 : findingSummary) (rest : list findingSummary)
    (first : bool) :
  hasTrace m0 = true ->
  Forall (fun e => traceable tr e = true) (m0 :: rest) ->
  Emits c tr (module_body (m0 :: rest) first) tt (moduleDoc tr first (m0 :: rest)).
Proof.
  intros Hm0 Ht. remember (m0 :: rest) as module eqn:Em.
  unfold hasTrace in Hm0.
  unfold module_body, moduleDoc. rewrite Em at 1 2.
  apply Emits_index0.
  destruct (Trace (finding m0)) as [|lastFrame frames]; [discriminate|].
  apply Emits_index0. cbv zeta.
  eapply Emits_eql.
  - eapply Emits_bind.
    { eapply (Emits_if c tr (negb first)); [apply Emits_print | apply Emits_ret]. }
    eapply Emits_bind; [apply Emits_print|].
    eapply Emits_bind.
    { apply Emits_if_same.
      - eapply Emits_bind; [apply Emits_print | apply Emits_ret].
      - eapply Emits_bind; [apply Emits_style|].
        eapply Emits_bind; [apply Emits_print | apply Emits_ret]. }
    eapply Emits_bind; [apply Emits_print|].
    eapply Emits_bind; [apply Emits_style|].
    eapply Emits_bind; [apply Emits_print|].
    eapply Emits_bind; [apply Emits_style|].
    eapply Emits_bind.
    { eapply Emits_if; apply Emits_print. }
    eapply Emits_bind; [apply Emits_print|].
    eapply Emits_bind.
    { apply Emits_if_same.
      - eapply Emits_bind; [apply Emits_style|].
        eapply Emits_bind; [apply Emits_platforms|].
        eapply Emits_bind; [apply Emits_print | apply Emits_ret].
      - apply Emits_ret. }
    apply Emits_traces. exact Ht.
  - unfold representativeDoc, moduleLineDoc, foundInDoc, fixedInDoc, platformsDoc,
      reprPath.
    destruct first;
      destruct (Module lastFrame =? GoStdModulePath)%string;
      destruct (isEmpty (moduleVersionString (Module lastFrame) (FixedVersion (finding m0))));
      destruct (platforms (Module lastFrame) (OSV m0)) as [|p ps];
      list_eq.
Qed.

Lemma Emits_modules_loop c tr (byModule : list (list findingSummary)) :
  forall first,
    Forall (fun m => m <> [] /\ Forall (fun f => ready f = true) m) byModule ->
    Emits c tr (modules_loop byModule first) tt (modulesDoc tr first byModule).
Proof.
  induction byModule as [|m rest IH]; intros first Hw; simpl.
  - apply Emits_ret.
  - apply Forall_cons_iff in Hw. destruct Hw as [[Hne Hm] Hr].
    destruct m as [|m0 ms]; [congruence|].
    eapply Emits_bind; [|now apply IH].
    apply Emits_module_body.
    + apply Forall_cons_iff in Hm. destruct Hm as [Hm _].
      unfold ready in Hm. now apply andb_true_iff in Hm.
    + eapply Forall_impl; [|exact Hm]. intros; now apply ready_traceable.
Qed.

Lemma groupBy_ready key (fs : list findingSummary) :
  Forall (fun f => ready f = true) fs ->
  Forall (fun m => m <> [] /\ Forall (fun f => ready f = true) m) (groupBy key fs).
Proof.
  intros H.
  pose proof (groupBy_nonempty key fs) as H1.
  pose proof (groupBy_Forall key _ fs H) as H2.
  rewrite Forall_forall in *. intros g Hg. split; auto.
Qed.

Lemma Emits_vulnerability c tr (index : Z) (findings : list findingSummary) :
  findings <> [] -> Forall (fun f => ready f = true) findings ->
  Emits c tr (vulnerability index findings) tt (vulnerabilityDoc tr index findings).
Proof.
  intros Hne Hw.
  pose proof (groupBy_ready moduleID findings Hw) as Hm.
  destruct findings as [|f0 rest] eqn:Ef; [congruence|]. rewrite <- Ef in Hm.
  apply Forall_cons_iff in Hw. destruct Hw as [Hf0 _].
  unfold ready in Hf0. apply andb_true_iff in Hf0. destruct Hf0 as [Hf0 _].
  unfold hasOSV in Hf0.
  unfold vulnerability, vulnerabilityDoc.
  destruct (OSV f0) as [osv0|] eqn:Eo; [|discriminate].
  unfold hasDB in Hf0.
  destruct (DBSpecific osv0) as [db|] eqn:Ed; [|discriminate].
  rewrite <- Ef.
  eapply Emits_eql.
  - eapply Emits_bind; [apply Emits_style|].
    eapply Emits_bind; [apply Emits_print|].
    rewrite Ef at 1. apply Emits_index0. rewrite Eo. apply Emits_deref.
    eapply Emits_bind.
    { apply Emits_if_same; apply Emits_style. }
    eapply Emits_bind; [apply Emits_print|].
    eapply Emits_bind; [apply Emits_style|].
    cbv zeta.
    eapply Emits_bind; [apply Emits_wrap|].
    eapply Emits_bind; [apply Emits_style|].
    eapply Emits_bind; [apply Emits_print|].
    eapply Emits_bind; [apply Emits_style|].
    rewrite Ed. apply Emits_deref.
    eapply Emits_bind; [apply Emits_print|].
    eapply Emits_bind; [apply Emits_modules_loop; exact Hm|].
    eapply Emits_bind; [apply Emits_print | apply Emits_ret].
  - unfold vulnHeadDoc, moreInfoURL. rewrite Ed.
    destruct (isCalled findings); list_eq.
Qed.

End BufferReport.

Lemma filter_length_split {A} (p : A -> bool) (l : list A) :
  (length (filter p l) + length (filter (fun x => negb (p x)) l) = length l)%nat.
Proof.
  induction l as [|x l IH]; simpl; [reflexivity|].
  destruct (p x); simpl; lia.
Qed.

Section BufferFlush.

Context {pkg : ScanPackage}.

Lemma Emits_called_loop c tr (groups : list (list findingSummary)) called :
  groupsReady groups ->
  exists r,
    r = called + Z.of_nat (length (filter isCalled groups)) /\
    Emits c tr (called_loop groups called) r
      (flat_map (fun ig => vulnerabilityDoc tr (fst ig) (snd ig))
         (numberFrom called (filter isCalled groups))).
Proof.
  revert called.
  induction groups as [|g rest IH]; intros called Hw; simpl.
  - exists called. split; [lia | apply Emits_ret].
  - apply Forall_cons_iff in Hw. destruct Hw as [[Hne Hg] Hr].
    destruct (isCalled g); simpl.
    + destruct (IH (called + 1) Hr) as [r [Er Hr']].
      exists r. split; [lia|].
      eapply Emits_bind; [now apply Emits_vulnerability | exact Hr'].
    + apply IH. exact Hr.
Qed.

Lemma Emits_uncalled_loop c tr (groups : list (list findingSummary)) :
  forall index,
    groupsReady groups ->
    Emits c tr (uncalled_loop groups index) tt
      (flat_map (fun ig => vulnerabilityDoc tr (fst ig) (snd ig))
         (numberFrom index (filter (fun g => negb (isCalled g)) groups))).
Proof.
  induction groups as [|g rest IH]; intros index Hw; simpl.
  - apply Emits_ret.
  - apply Forall_cons_iff in Hw. destruct Hw as [[Hne Hg] Hr].
    destruct (isCalled g); simpl.
    + apply IH. exact Hr.
    + eapply Emits_bind; [now apply Emits_vulnerability | now apply IH].
Qed.

Lemma Emits_byVulnerability c tr (findings : list findingSummary) :
  Forall (fun f => ready f = true) findings ->
  Emits c tr (byVulnerability findings) tt (byVulnerabilityDoc tr findings).
Proof.
  intros Hw. pose proof (groupBy_ready vulnID findings Hw) as Hg.
  unfold byVulnerability, byVulnerabilityDoc, primaryDoc, informationalDoc,
    sectionDoc, calledGroups, unCalledGroups. cbv zeta.
  fold groupByVuln in Hg.
  destruct (Emits_called_loop c tr (groupByVuln findings) 0 Hg) as [r [Er Hr]].
  pose proof (filter_length_split isCalled (groupByVuln findings)) as Hlen.
  assert (Eu : Z.of_nat (length (groupByVuln findings)) - r
               = Z.of_nat (length (filter (fun g => negb (isCalled g))
                                     (groupByVuln findings)))) by lia.
  eapply Emits_bind; [exact Hr|]. cbv beta. rewrite Eu.
  destruct (filter (fun g => negb (isCalled g)) (groupByVuln findings))
    as [|u us] eqn:Ef.
  - simpl. apply Emits_ret.
  - replace (Z.of_nat (length (u :: us)) =? 0) with false
      by (symmetry; apply Z.eqb_neq; simpl length; lia).
    eapply Emits_eql.
    + eapply Emits_bind; [apply Emits_style|].
      eapply Emits_bind; [apply Emits_print|].
      eapply Emits_bind; [apply Emits_print|].
      eapply Emits_bind; [apply Emits_print|].
      eapply Emits_bind; [apply Emits_print|].
      eapply Emits_bind; [apply Emits_print|].
      apply Emits_uncalled_loop. exact Hg.
    + unfold informationalIntro. rewrite Ef. list_eq.
Qed.

Lemma Emits_summary c tr (findings : list findingSummary) :
  Emits c tr (summary findings) tt (summaryDoc (counters findings)).
Proof.
  unfold summary, summaryDoc, modulesClause, stdlibClause. cbv zeta.
  destruct (VulnerabilitiesCalled (counters findings) =? 0).
  - eapply Emits_eql; [eapply Emits_bind; [apply Emits_print | apply Emits_ret]|].
    list_eq.
  - eapply Emits_eql.
    + eapply Emits_bind; [apply Emits_print|].
      eapply Emits_bind; [apply Emits_style|].
      eapply Emits_bind; [apply Emits_print|].
      eapply Emits_bind; [apply Emits_print|].
      eapply Emits_bind.
      { apply Emits_if_same.
        - eapply Emits_bind; [apply Emits_print|].
          eapply Emits_bind; [apply Emits_style|].
          eapply Emits_bind; [apply Emits_print | apply Emits_ret].
        - apply Emits_ret. }
      eapply Emits_bind.
      { apply Emits_if_same.
        - eapply Emits_bind.
          { eapply Emits_if; [apply Emits_print | apply Emits_ret]. }
          eapply Emits_bind; [apply Emits_print | apply Emits_ret].
        - apply Emits_ret. }
      eapply Emits_bind; [apply Emits_print | apply Emits_ret].
    + unfold choose.
      destruct (0 <? ModulesCalled (counters findings));
        destruct (StdlibCalled (counters findings));
        destruct (negb (ModulesCalled (counters findings) =? 0));
        list_eq.
Qed.

Lemma Emits_Config c tr (config : Config) :
  Emits c tr (ConfigOp config) None (configDoc config).
Proof.
  unfold ConfigOp, configDoc.
  eapply Emits_eql.
  - eapply Emits_bind; [apply Emits_print|].
    eapply Emits_bind.
    { apply Emits_if_same.
      - eapply Emits_bind; [apply Emits_style|].
        eapply Emits_bind; [apply Emits_print | apply Emits_ret].
      - apply Emits_ret. }
    eapply Emits_bind.
    { apply Emits_if_same.
      - eapply Emits_bind; [apply Emits_style|].
        eapply Emits_bind.
        { eapply Emits_if; [apply Emits_print | apply Emits_ret]. }
        eapply Emits_bind; [apply Emits_print | apply Emits_ret].
      - apply Emits_ret. }
    eapply Emits_bind; [apply Emits_print|].
    eapply Emits_bind.
    { instantiate (2 := match DBLastModified config with
                        | Some t => len (printed [VString " (last modified "; VTime t; VString ")"])
                        | None => 0
                        end).
      instantiate (1 := match DBLastModified config with
                        | Some t => [Text " (last modified "; Text (timeString t); Text ")"]
                        | None => []
                        end).
      destruct (DBLastModified config);
        [eapply Emits_eql; [apply Emits_print | reflexivity] | apply Emits_ret]. }
    eapply Emits_bind; [apply Emits_print|].
    instantiate (1 := []).
    intros h He Hc Ht. unfold getErr. rewrite He. simpl. now rewrite emit_nil.
  - destruct (negb (isEmpty (GoVersion config)));
      destruct (negb (isEmpty (ScannerName config)));
      destruct (negb (isEmpty (ScannerVersion config)));
      destruct (DBLastModified config); list_eq.
Qed.

Lemma Emits_Progress c tr (progress : Progress) :
  Emits c tr (ProgressOp progress) None (progressDoc progress).
Proof.
  unfold ProgressOp, progressDoc.
  eapply Emits_eql.
  - eapply Emits_bind; [apply Emits_print|].
    instantiate (1 := []).
    intros h He Hc Ht. unfold getErr. rewrite He. simpl. now rewrite emit_nil.
  - list_eq.
Qed.

(** The entry [getOSV] resolves carries its database-specific part when
    the submitted entries do. *)
Lemma getOSV_hasDB osvs (id : string) :
  Forall (fun e => hasDB e = true) osvs -> hasDB (getOSV osvs id) = true.
Proof.
  intros H. unfold getOSV.
  destruct (find (fun e => (ID e =? id)%string) osvs) as [e|] eqn:E; [|reflexivity].
  apply find_some in E. rewrite Forall_forall in H. apply H, E.
Qed.

(** After [fixupFindings] every finding has its entry. *)
Lemma fixupFindings_ready osvs (fs : list findingSummary) :
  Forall (fun e => hasDB e = true) osvs ->
  Forall (fun f => hasTrace f = true) fs ->
  Forall (fun f => ready f = true) (fixupFindings osvs fs).
Proof.
  intros Hd H. unfold fixupFindings. apply Forall_map.
  eapply Forall_impl; [|exact H]. intros f Hf. unfold ready, hasOSV. simpl.
  rewrite (getOSV_hasDB _ _ Hd). exact Hf.
Qed.

Lemma isCalled_fixup osvs (fs : list findingSummary) :
  isCalled (fixupFindings osvs fs) = isCalled fs.
Proof.
  unfold isCalled, fixupFindings. induction fs as [|f fs IH]; simpl; [reflexivity|].
  now rewrite IH.
Qed.

Lemma Flush_buffer (h : TextHandler string) :
  err h = None ->
  Forall (fun f => hasTrace f = true) (findings h) ->
  Forall (fun e => hasDB e = true) (osvs h) ->
  let fs := fixupFindings (osvs h) (findings h) in
  Flush h = Some (flushResult fs,
                  emit (set_findings h fs)
                    (render (showColor h) (flushDoc (showTraces h) fs))).
Proof.
  intros He Hw Hd fs. unfold Flush. fold fs.
  assert (H : Emits (showColor h) (showTraces h)
                (byVulnerability fs ;; summary fs ;;
                 print [VString feedbackMessage] ;;
                 e <- getErr ;;
                 match e with
                 | Some e' => ret (Some e')
                 | None => if isCalled fs then ret (Some errVulnerabilitiesFound)
                           else ret None
                 end)
                (flushResult fs) (flushDoc (showTraces h) fs)).
  { eapply Emits_eql.
    - eapply Emits_bind;
        [apply Emits_byVulnerability, fixupFindings_ready; [exact Hd | exact Hw]|].
      eapply Emits_bind; [apply Emits_summary|].
      eapply Emits_bind; [apply Emits_print|].
      instantiate (1 := []).
      intros h' He' Hc' Ht'. unfold bind, getErr. rewrite He'.
      unfold flushResult. destruct (isCalled fs); unfold ret; simpl;
        now rewrite emit_nil.
    - unfold flushDoc. list_eq. }
  apply H; reflexivity || exact He.
Qed.

End BufferFlush.

(** ** Writing to any sink *)
Section AnyWriter.

Context {pkg : ScanPackage}.
Context {W : Type} {writer : Writer W}.

Lemma reach_trans h1 h2 h3 : reach h1 h2 -> reach h2 h3 -> reach h1 h3.
Proof.
  intros H12 H23. induction H23; [assumption|].
  eapply reach_write; eauto.
Qed.

Lemma reach_frame h h' :
  reach h h' ->
  osvs h' = osvs h /\ findings h' = findings h /\
  showColor h' = showColor h /\ showTraces h' = showTraces h.
Proof. induction 1; simpl; tauto. Qed.

(** Once an error is recorded nothing is written and the error stays. *)
Lemma reach_sticky h h' e : reach h h' -> err h = Some e -> h' = h.
Proof.
  intros H He. induction H as [|h' p w' n e' H IH Hn Hw]; [reflexivity|].
  rewrite IH in Hn. congruence.
Qed.

Lemma Runs_ret {A} (a : A) : Runs (ret a).
Proof. intros h. exists a, h. split; [reflexivity | constructor]. Qed.

Lemma Runs_bind {A B} (m : M W A) (k : A -> M W B) :
  Runs m -> (forall a, Runs (k a)) -> Runs (bind m k).
Proof.
  intros Hm Hk h. destruct (Hm h) as [a [h1 [E1 R1]]].
  destruct (Hk a h1) as [b [h2 [E2 R2]]].
  exists b, h2. unfold bind. rewrite E1. split; [assumption|].
  eapply reach_trans; eauto.
Qed.

Lemma Runs_print_loop (values : list value) : forall total, Runs (print_loop values total).
Proof.
  induction values as [|v rest IH]; intros total h; simpl.
  - apply Runs_ret.
  - destruct (err h) eqn:He.
    + exists total, h. split; [reflexivity | constructor].
    + destruct (Write (w h) (Fprint v)) as [[w' n] e] eqn:Ew.
      destruct (IH (total + n) (set_w_err h w' e)) as [a [h' [E R]]].
      exists a, h'. split; [assumption|].
      eapply reach_trans; [|exact R].
      eapply reach_write; [constructor | exact He | exact Ew].
Qed.

Lemma Runs_print (values : list value) : Runs (print values).
Proof. apply Runs_print_loop. Qed.

Lemma Runs_getShowColor : Runs (@getShowColor W).
Proof. intros h. exists (showColor h), h. split; [reflexivity | constructor]. Qed.

Lemma Runs_getShowTraces : Runs (@getShowTraces W).
Proof. intros h. exists (showTraces h), h. split; [reflexivity | constructor]. Qed.

Lemma Runs_getErr : Runs (@getErr W).
Proof. intros h. exists (err h), h. split; [reflexivity | constructor]. Qed.

Lemma Runs_index0 {A B} (x : A) (l : list A) (k : A -> M W B) :
  Runs (k x) -> Runs (bind (index0 (x :: l)) k).
Proof. intros H h. exact (H h). Qed.

Lemma Runs_deref {A B} (x : A) (k : A -> M W B) :
  Runs (k x) -> Runs (bind (deref (Some x)) k).
Proof. intros H h. exact (H h). Qed.

Ltac runs_more := fail.

Ltac runs :=
  repeat first
    [ runs_more
    | apply Runs_ret
    | apply Runs_print
    | apply Runs_getShowColor
    | apply Runs_getShowTraces
    | apply Runs_getErr
    | apply Runs_index0
    | apply Runs_deref
    | apply Runs_bind; [|intros ?]
    | match goal with
      | |- Runs (if ?b then _ else _) => destruct b
      | |- Runs (match ?o with Some _ => _ | None => _ end) => destruct o
      end ].

Lemma Runs_style st (values : list value) : Runs (style st values).
Proof. unfold style. runs. Qed.

Lemma Runs_wrap_loop indent (fields : list string) maxWidth :
  forall w0, Runs (wrap_loop indent fields maxWidth w0).
Proof.
  induction fields as [|f rest IH]; intros w0; simpl; runs. apply IH.
Qed.

Lemma Runs_wrap indent s maxWidth : Runs (wrap indent s maxWidth).
Proof. apply Runs_wrap_loop. Qed.

Ltac runs_more ::= first [apply Runs_style | apply Runs_wrap].

Lemma Runs_frames (frames : list Frame) : Runs (frames_loop frames).
Proof. induction frames as [|t rest IH]; simpl; runs. exact IH. Qed.

Lemma Runs_traces_loop (entries : list findingSummary) :
  forall i first,
    Forall (fun f => hasTrace f = true) entries ->
    Runs (traces_loop entries i first).
Proof.
  induction entries as [|e rest IH]; intros i first Hw; simpl; [apply Runs_ret|].
  apply Forall_cons_iff in Hw. destruct Hw as [He Hr].
  unfold hasTrace in He.
  destruct (Trace (finding e)) as [|t0 ts] eqn:Et; [discriminate|].
  destruct (isEmpty (Compact e)); [now apply IH|].
  runs; try apply Runs_frames; now apply IH.
Qed.

Lemma Runs_platforms_loop (ps : list string) : forall ip, Runs (platforms_loop ps ip).
Proof. induction ps as [|p rest IH]; intros ip; simpl; runs. apply IH. Qed.

Lemma Runs_module_body (module : list findingSummary) first :
  module <> [] -> Forall (fun f => hasTrace f = true) module ->
  Runs (module_body module first).
Proof.
  intros Hne Hw. pose proof (Runs_traces_loop module 0 true Hw) as Ht.
  destruct module as [|m0 rest] eqn:Em; [congruence|]. rewrite <- Em in Ht.
  apply Forall_cons_iff in Hw. destruct Hw as [Hm0 _]. unfold hasTrace in Hm0.
  unfold module_body. apply Runs_index0.
  destruct (Trace (finding m0)) as [|lastFrame frames]; [discriminate|].
  apply Runs_index0. cbv zeta.
  runs; try apply Runs_platforms_loop; rewrite <- Em; exact Ht.
Qed.

Lemma Runs_modules_loop (byModule : list (list findingSummary)) :
  forall first,
    Forall (fun m => m <> [] /\ Forall (fun f => hasTrace f = true) m) byModule ->
    Runs (modules_loop byModule first).
Proof.
  induction byModule as [|m rest IH]; intros first Hw; simpl; [apply Runs_ret|].
  apply Forall_cons_iff in Hw. destruct Hw as [[Hne Hm] Hr].
  apply Runs_bind; [now apply Runs_module_body | intros _; now apply IH].
Qed.

Lemma Runs_vulnerability (index : Z) (findings : list findingSummary) :
  findings <> [] -> Forall (fun f => ready f = true) findings ->
  Runs (vulnerability index findings).
Proof.
  intros Hne Hw.
  assert (Ht : Forall (fun f => hasTrace f = true) findings).
  { eapply Forall_impl; [|exact Hw]. intros f Hf. unfold ready in Hf.
    now apply andb_true_iff in Hf. }
  assert (Hm : Runs (modules_loop (groupByModule findings) true)).
  { apply Runs_modules_loop.
    pose proof (groupBy_nonempty moduleID findings) as H1.
    pose proof (groupBy_Forall moduleID _ findings Ht) as H2.
    rewrite Forall_forall in *. intros g Hg. split; auto. }
  destruct findings as [|f0 rest] eqn:Ef; [congruence|]. rewrite <- Ef in Hm.
  apply Forall_cons_iff in Hw. destruct Hw as [Hf0 _].
  unfold ready in Hf0. apply andb_true_iff in Hf0. destruct Hf0 as [Hf0 _].
  unfold hasOSV in Hf0.
  unfold vulnerability.
  apply Runs_bind; [apply Runs_style | intros _].
  apply Runs_bind; [apply Runs_print | intros _].
  apply Runs_index0.
  destruct (OSV f0) as [osv0|]; [|discriminate].
  apply Runs_deref. rewrite <- Ef.
  unfold hasDB in Hf0.
  destruct (DBSpecific osv0) as [db|]; [|discriminate].
  runs; exact Hm.
Qed.

Lemma Runs_called_loop (groups : list (list findingSummary)) :
  forall called, groupsReady groups -> Runs (called_loop groups called).
Proof.
  induction groups as [|g rest IH]; intros called Hw; simpl; [apply Runs_ret|].
  apply Forall_cons_iff in Hw. destruct Hw as [[Hne Hg] Hr].
  destruct (isCalled g); [|now apply IH].
  apply Runs_bind; [now apply Runs_vulnerability | intros _; now apply IH].
Qed.

Lemma Runs_uncalled_loop (groups : list (list findingSummary)) :
  forall index, groupsReady groups -> Runs (uncalled_loop groups index).
Proof.
  induction groups as [|g rest IH]; intros index Hw; simpl; [apply Runs_ret|].
  apply Forall_cons_iff in Hw. destruct Hw as [[Hne Hg] Hr].
  destruct (isCalled g); simpl; [now apply IH|].
  apply Runs_bind; [now apply Runs_vulnerability | intros _; now apply IH].
Qed.

Lemma Runs_byVulnerability (findings : list findingSummary) :
  Forall (fun f => ready f = true) findings -> Runs (byVulnerability findings).
Proof.
  intros Hw. pose proof (groupBy_ready vulnID findings Hw) as Hg.
  unfold byVulnerability. cbv zeta.
  apply Runs_bind; [now apply Runs_called_loop | intros called].
  runs. now apply Runs_uncalled_loop.
Qed.

Lemma Runs_summary (findings : list findingSummary) : Runs (summary findings).
Proof. unfold summary. cbv zeta. runs. Qed.

Lemma Runs_Config (config : Config) : Runs (ConfigOp config).
Proof. unfold ConfigOp. runs. Qed.

Lemma Runs_Progress (progress : Progress) : Runs (ProgressOp progress).
Proof. unfold ProgressOp. runs. Qed.

(** [Flush] does not panic on findings that have a frame 0 and entries that
    carry their database-specific part; it returns the recorded error when
    there is one, and else what [isCalled] decides. *)
Lemma Flush_runs (h : TextHandler W) :
  Forall (fun f => hasTrace f = true) (findings h) ->
  Forall (fun e => hasDB e = true) (osvs h) ->
  let fs := fixupFindings (osvs h) (findings h) in
  exists r h',
    Flush h = Some (r, h') /\ reach (set_findings h fs) h' /\
    r = match err h' with
        | Some e => Some e
        | None => flushResult fs
        end.
Proof.
  intros Hw Hd fs. unfold Flush. fold fs.
  set (h1 := set_findings h fs).
  assert (Hr : Forall (fun f => ready f = true) fs)
    by (apply fixupFindings_ready; [exact Hd | exact Hw]).
  assert (R : Runs (byVulnerability fs ;; summary fs ;;
                    print [VString feedbackMessage])).
  { apply Runs_bind; [now apply Runs_byVulnerability | intros _].
    apply Runs_bind; [apply Runs_summary | intros _]. apply Runs_print. }
  destruct (R h1) as [a [h' [E Rh]]].
  unfold bind in *. change (findings h1) with fs.
  destruct (byVulnerability fs h1) as [[u1 h2]|]; [|discriminate].
  destruct (summary fs h2) as [[u2 h3]|]; [|discriminate].
  rewrite E. unfold getErr.
  exists (match err h' with Some e => Some e | None => flushResult fs end), h'.
  split; [|split; [exact Rh | reflexivity]].
  unfold flushResult. destruct (err h'); [reflexivity|].
  destruct (isCalled fs); reflexivity.
Qed.

(** ** When the renderer panics *)

Lemma Decides_runs {A} (m : M W A) (h : TextHandler W) :
  Runs m -> Decides m h true.
Proof.
  intros R. unfold Decides. destruct (R h) as [a [h' [E Rh]]]. rewrite E. auto.
Qed.

Lemma Decides_None {A} (m : M W A) (h : TextHandler W) c :
  Decides m h c -> (m h = None <-> c = false).
Proof.
  unfold Decides. destruct (m h) as [[a h']|].
  - intros [-> _]. split; discriminate.
  - intros ->. split; reflexivity.
Qed.

Lemma Decides_bind_result {A B} (m : M W A) (k : A -> M W B) (h : TextHandler W)
    c1 c2 :
  Decides m h c1 ->
  (forall a h1, m h = Some (a, h1) -> reach h h1 -> Decides (k a) h1 c2) ->
  Decides (bind m k) h (c1 && c2).
Proof.
  unfold Decides, bind. intros Hm Hk.
  destruct (m h) as [[a h1]|]; [|now subst].
  destruct Hm as [-> R1]. specialize (Hk a h1 eq_refl R1). simpl.
  destruct (k a h1) as [[b h2]|]; [|exact Hk].
  destruct Hk as [-> R2]. split; [reflexivity|]. eapply reach_trans; eassumption.
Qed.

Lemma Decides_bind {A B} (m : M W A) (k : A -> M W B) (h : TextHandler W) c1 c2 :
  Decides m h c1 ->
  (forall a h1, reach h h1 -> Decides (k a) h1 c2) ->
  Decides (bind m k) h (c1 && c2).
Proof. intros Hm Hk. apply Decides_bind_result; [exact Hm | intros; now apply Hk]. Qed.

Lemma Decides_after {A B} (m : M W A) (k : A -> M W B) (h : TextHandler W) c :
  Runs m ->
  (forall a h1, reach h h1 -> Decides (k a) h1 c) ->
  Decides (bind m k) h c.
Proof.
  intros R Hk. change c with (true && c).
  apply Decides_bind; [now apply Decides_runs | exact Hk].
Qed.

Lemma Decides_before {A B} (m : M W A) (k : A -> M W B) (h : TextHandler W) c :
  Decides m h c ->
  (forall a, Runs (k a)) ->
  Decides (bind m k) h c.
Proof.
  intros Hm R. rewrite <- (andb_true_r c).
  apply Decides_bind; [exact Hm | intros a h1 _; apply Decides_runs, R].
Qed.

Lemma Decides_getShowTraces {B} (k : bool -> M W B) (h : TextHandler W) c :
  Decides (k (showTraces h)) h c -> Decides (bind getShowTraces k) h c.
Proof. intros H. exact H. Qed.

Lemma Decides_index0 {A B} (s : list A) (k : A -> M W B) (h : TextHandler W) c :
  match s with
  | [] => c = false
  | x :: _ => Decides (k x) h c
  end ->
  Decides (bind (index0 s) k) h c.
Proof. destruct s; intros H; exact H. Qed.

Lemma Decides_deref {A B} (p : option A) (k : A -> M W B) (h : TextHandler W) c :
  match p with
  | None => c = false
  | Some x => Decides (k x) h c
  end ->
  Decides (bind (deref p) k) h c.
Proof. destruct p; intros H; exact H. Qed.

Lemma reach_showTraces (h h' : TextHandler W) :
  reach h h' -> showTraces h' = showTraces h.
Proof. intros R. now destruct (reach_frame _ _ R) as (_ & _ & _ & H). Qed.

Ltac same_options :=
  repeat match goal with
         | R : reach _ _ |- _ => apply reach_showTraces in R
         end;
  congruence.

Lemma traces_loop_decides (entries : list findingSummary) :
  forall i first (h : TextHandler W),
    Decides (traces_loop entries i first) h
      (forallb (traceable (showTraces h)) entries).
Proof.
  induction entries as [|e rest IH]; intros i first h.
  - apply Decides_runs. apply Runs_ret.
  - cbn [traces_loop forallb]. unfold traceable at 1.
    destruct (isEmpty (Compact e)) eqn:Ec.
    + rewrite orb_true_r. apply IH.
    + rewrite orb_false_r.
      apply Decides_after; [destruct first; runs | intros a1 h1 R1].
      apply Decides_after; [runs | intros a2 h2 R2].
      apply Decides_getShowTraces.
      assert (E2 : showTraces h2 = showTraces h) by same_options.
      rewrite E2. clear E2.
      remember (showTraces h) as full eqn:Ef.
      destruct full; cbn [negb orb].
      * apply Decides_bind.
        -- apply Decides_index0. unfold hasTrace.
           destruct (Trace (finding e)) as [|t0 ts]; [reflexivity|].
           apply Decides_runs. runs. apply Runs_frames.
        -- intros a3 h3 R3. pose proof (IH (i + 1) false h3) as H3.
           replace (showTraces h3) with true in H3 by same_options. exact H3.
      * apply Decides_after; [runs | intros a3 h3 R3].
        pose proof (IH (i + 1) false h3) as H3.
        replace (showTraces h3) with false in H3 by same_options. exact H3.
Qed.

Lemma module_body_decides (module : list findingSummary) (first : bool)
    (h : TextHandler W) :
  Decides (module_body module first) h (printable (showTraces h) module).
Proof.
  unfold module_body, printable.
  apply Decides_index0. destruct module as [|m0 rest] eqn:Em; [reflexivity|].
  rewrite <- Em. apply Decides_index0. unfold hasTrace.
  destruct (Trace (finding m0)) as [|lastFrame fr]; [reflexivity|].
  cbv zeta. cbn [andb].
  do 10 (apply Decides_after;
         [runs; try apply Runs_platforms_loop | intros ? ? ?]).
  match goal with
  | |- Decides _ ?h' _ => replace (showTraces h) with (showTraces h') by same_options
  end.
  apply traces_loop_decides.
Qed.

Lemma modules_loop_decides (byModule : list (list findingSummary)) :
  forall first (h : TextHandler W),
    Decides (modules_loop byModule first) h
      (forallb (printable (showTraces h)) byModule).
Proof.
  induction byModule as [|m rest IH]; intros first h; cbn [modules_loop forallb].
  - apply Decides_runs. apply Runs_ret.
  - apply Decides_bind; [apply module_body_decides | intros a h1 R1].
    replace (showTraces h) with (showTraces h1) by same_options. apply IH.
Qed.

Lemma vulnerability_decides (index : Z) (findings : list findingSummary)
    (h : TextHandler W) :
  Decides (vulnerability index findings) h (renders (showTraces h) findings).
Proof.
  unfold vulnerability, renders.
  apply Decides_after; [runs | intros ? ? ?].
  apply Decides_after; [runs | intros ? ? ?].
  apply Decides_index0. destruct findings as [|f0 rest] eqn:Ef; [reflexivity|].
  rewrite <- Ef. unfold hasOSV.
  apply Decides_deref. destruct (OSV f0) as [osv0|]; [|reflexivity].
  do 7 (apply Decides_after; [runs | intros ? ? ?]). cbv zeta.
  apply Decides_deref. unfold hasDB.
  destruct (DBSpecific osv0) as [db|]; [|reflexivity]. cbn [andb].
  apply Decides_after; [runs | intros ? ? ?].
  match goal with
  | |- Decides _ ?h' _ => replace (showTraces h) with (showTraces h') by same_options
  end.
  apply Decides_before; [apply modules_loop_decides | intros _; runs].
Qed.

(** When [called_loop] returns, it returns the counter advanced by the
    number of called groups. *)
Lemma called_loop_count (groups : list (list findingSummary)) :
  forall called (h : TextHandler W) c h',
    called_loop groups called h = Some (c, h') ->
    c = called + Z.of_nat (length (filter isCalled groups)).
Proof.
  induction groups as [|g rest IH]; intros called h c h' E; cbn [called_loop] in E.
  - inversion E. simpl. lia.
  - cbn [filter]. destruct (isCalled g).
    + unfold bind at 1 in E.
      destruct (vulnerability called g h) as [[u h1]|]; [|discriminate].
      apply IH in E. cbn [length]. lia.
    + now apply IH in E.
Qed.

Lemma called_loop_decides (groups : list (list findingSummary)) :
  forall called (h : TextHandler W),
    Decides (called_loop groups called) h
      (forallb (renders (showTraces h)) (filter isCalled groups)).
Proof.
  induction groups as [|g rest IH]; intros called h; cbn [called_loop filter].
  - apply Decides_runs. apply Runs_ret.
  - destruct (isCalled g); [|apply IH]. cbn [forallb].
    apply Decides_bind; [apply vulnerability_decides | intros a h1 R1].
    replace (showTraces h) with (showTraces h1) by same_options. apply IH.
Qed.

Lemma uncalled_loop_decides (groups : list (list findingSummary)) :
  forall index (h : TextHandler W),
    Decides (uncalled_loop groups index) h
      (forallb (renders (showTraces h))
         (filter (fun g => negb (isCalled g)) groups)).
Proof.
  induction groups as [|g rest IH]; intros index h; cbn [uncalled_loop filter].
  - apply Decides_runs. apply Runs_ret.
  - destruct (negb (isCalled g)); [|apply IH]. cbn [forallb].
    apply Decides_bind; [apply vulnerability_decides | intros a h1 R1].
    replace (showTraces h) with (showTraces h1) by same_options. apply IH.
Qed.

Lemma forallb_filter_split {A} (p q : A -> bool) (l : list A) :
  forallb p l
  = forallb p (filter q l) && forallb p (filter (fun x => negb (q x)) l).
Proof.
  induction l as [|x l IH]; [reflexivity|]. cbn [forallb filter]. rewrite IH.
  destruct (q x); cbn [negb forallb]; destruct (p x); simpl;
    rewrite ?andb_false_r; reflexivity.
Qed.

Lemma byVulnerability_decides (findings : list findingSummary) (h : TextHandler W) :
  Decides (byVulnerability findings) h
    (forallb (renders (showTraces h)) (groupByVuln findings)).
Proof.
  unfold byVulnerability. cbv zeta.
  rewrite (forallb_filter_split _ isCalled).
  apply Decides_bind_result; [apply called_loop_decides | intros c h1 E R1].
  apply called_loop_count in E. rewrite Z.add_0_l in E.
  pose proof (filter_length_split isCalled (groupByVuln findings)) as Hl.
  destruct (Z.of_nat (length (groupByVuln findings)) - c =? 0) eqn:Ez.
  - apply Z.eqb_eq in Ez.
    destruct (filter (fun g => negb (isCalled g)) (groupByVuln findings)) eqn:Eu;
      [|simpl in Hl; lia].
    apply Decides_runs, Runs_ret.
  - do 6 (apply Decides_after; [runs | intros ? ? ?]).
    match goal with
    | |- Decides _ ?h' _ => replace (showTraces h) with (showTraces h') by same_options
    end.
    apply uncalled_loop_decides.
Qed.

(** [Flush] panics exactly when some vulnerability group cannot be
    printed. *)
Lemma Flush_decides (h : TextHandler W) :
  Flush h = None <->
  forallb (renders (showTraces h))
    (groupByVuln (fixupFindings (osvs h) (findings h))) = false.
Proof.
  set (fs := fixupFindings (osvs h) (findings h)).
  assert (H : Decides (byVulnerability fs ;;
                       summary fs ;;
                       print [VString feedbackMessage] ;;
                       e <- getErr ;;
                       match e with
                       | Some e' => ret (Some e')
                       | None =>
                           if isCalled fs then ret (Some errVulnerabilitiesFound)
                           else ret None
                       end) (set_findings h fs)
                (forallb (renders (showTraces h)) (groupByVuln fs))).
  { apply Decides_before; [apply (byVulnerability_decides fs (set_findings h fs))|].
    intros _. runs. apply Runs_summary. }
  unfold Decides in H. unfold Flush. fold fs.
  change (findings (set_findings h fs)) with fs.
  match type of H with
  | match ?t with _ => _ end => destruct t as [[r h']|]
  end.
  - destruct H as [H _]. rewrite H. split; discriminate.
  - split; [intros _; exact H | reflexivity].
Qed.

End AnyWriter.

(** ** Style codes *)
Lemma sgrLen_app (r x : string) n :
  sgrLen r = Some n -> sgrLen (r ++ x) = Some n.
Proof.
  revert n. induction r as [|c r IH]; intros n; simpl; [discriminate|].
  destruct (byte c =? 109); [auto|].
  destruct (isDigit c); [|discriminate].
  destruct (sgrLen r) as [m|]; [|discriminate].
  simpl. intros H. now rewrite (IH m eq_refl).
Qed.

Lemma codeWidth_app (s x : string) :
  codeWidth s <> 0%nat -> codeWidth (s ++ x) = codeWidth s.
Proof.
  destruct s as [|c1 [|c2 r]]; simpl; try congruence.
  destruct ((byte c1 =? 27) && (byte c2 =? 91)); [|congruence].
  destruct (sgrLen r) as [n|] eqn:E; [|congruence].
  intros _. now rewrite (sgrLen_app r x n E).
Qed.

Lemma stripFrom_skip (a x : string) :
  stripFrom (a ++ x) (String.length a) = stripFrom x 0.
Proof.
  induction a as [|c a IH]; simpl; [|exact IH].
  destruct x; reflexivity.
Qed.

Lemma stripFrom_cons c (r : string) :
  stripFrom (String c r) 0
  = match codeWidth (String c r) with
    | O => String c (stripFrom r 0)
    | S k => stripFrom r k
    end.
Proof. reflexivity. Qed.

(** A style code is dropped whole. *)
Lemma stripFrom_code (s x : string) :
  isStyleCode s = true -> stripFrom (s ++ x) 0 = stripFrom x 0.
Proof.
  unfold isStyleCode. intros H. apply andb_true_iff in H. destruct H as [Hn Hw].
  apply Nat.eqb_eq in Hw.
  destruct s as [|c r]; [discriminate|].
  assert (Hc : codeWidth (String c r ++ x) = S (String.length r)).
  { rewrite codeWidth_app; rewrite Hw; simpl; congruence. }
  change (String c r ++ x) with (String c (r ++ x)) in *.
  rewrite stripFrom_cons, Hc. apply stripFrom_skip.
Qed.

Lemma codeWidth_noEsc c (r : string) :
  (byte c =? 27) = false -> codeWidth (String c r) = 0%nat.
Proof. intros H. destruct r; simpl; [reflexivity|]. now rewrite H. Qed.

(** Text without the escape byte is kept. *)
Lemma stripFrom_text (s x : string) :
  noEsc s = true -> stripFrom (s ++ x) 0 = s ++ stripFrom x 0.
Proof.
  induction s as [|c s IH]; intros H.
  - reflexivity.
  - simpl in H. change (String c s ++ x) with (String c (s ++ x)).
    change (String c s ++ stripFrom x 0) with (String c (s ++ stripFrom x 0)).
    apply andb_true_iff in H. destruct H as [Hc Hs].
    apply negb_true_iff in Hc.
    rewrite stripFrom_cons, (codeWidth_noEsc c (s ++ x) Hc). now rewrite IH.
Qed.

Lemma noEsc_app (a b : string) : noEsc (a ++ b) = noEsc a && noEsc b.
Proof.
  induction a as [|c a IH]; simpl; [reflexivity|].
  now rewrite IH, andb_assoc.
Qed.

(** Every [Code] piece of a document is a style code. *)
Definition codesOK (ps : list piece) : Prop :=
  Forall (fun p => match p with
                   | Code s => isStyleCode s = true
                   | Text _ => True
                   end) ps.

Lemma strip_render_app (ps : list piece) (x : string) :
  codesOK ps -> noEsc (render false ps) = true ->
  stripFrom (render true ps ++ x) 0 = render false ps ++ stripFrom x 0.
Proof.
  intros Hc. induction Hc as [|p ps Hp Hps IH]; intros Hn.
  - reflexivity.
  - unfold render in *. simpl in *. rewrite noEsc_app in Hn.
    apply andb_true_iff in Hn. destruct Hn as [Hn1 Hn2].
    rewrite !append_assoc. destruct p as [s|s]; simpl in *.
    + rewrite stripFrom_code by assumption. now apply IH.
    + rewrite stripFrom_text by assumption. now rewrite IH.
Qed.

(** Stripping the coloured rendering of a document gives its plain
    rendering, when the plain rendering has no escape byte. *)
Lemma strip_render (ps : list piece) :
  codesOK ps -> noEsc (render false ps) = true ->
  stripCodes (render true ps) = render false ps.
Proof.
  intros Hc Hn. unfold stripCodes.
  rewrite <- (append_nil_r (render true ps)).
  rewrite strip_render_app by assumption. simpl. apply append_nil_r.
Qed.

Lemma codesOK_app (p q : list piece) : codesOK p -> codesOK q -> codesOK (p ++ q).
Proof. intros. apply Forall_app. now split. Qed.

Lemma codesOK_texts (l : list piece) :
  (forall p, In p l -> exists s, p = Text s) -> codesOK l.
Proof.
  intros H. apply Forall_forall. intros p Hp. destruct (H p Hp) as [s ->]. exact I.
Qed.

Lemma codesOK_flat_map {A} (f : A -> list piece) (l : list A) :
  (forall x, In x l -> codesOK (f x)) -> codesOK (flat_map f l).
Proof.
  induction l as [|x l IH]; intros H; simpl; [constructor|].
  apply codesOK_app; [apply H; now left | apply IH; intros; apply H; now right].
Qed.

Section Codes.

Context {pkg : ScanPackage}.
Hypothesis codes : styleCodesOK pkg = true.

Lemma codes_each :
  isStyleCode colorReset = true /\ isStyleCode colorBold = true /\
  isStyleCode colorFaint = true /\ isStyleCode fgRed = true /\
  isStyleCode fgGreen = true /\ isStyleCode fgBlue = true /\
  isStyleCode fgYellow = true /\ isStyleCode fgCyan = true.
Proof.
  unfold styleCodesOK in codes. simpl in codes.
  repeat (apply andb_true_iff in codes; destruct codes as [? codes]).
  tauto.
Qed.

Lemma codesOK_styled st values : codesOK (styled st values).
Proof.
  destruct codes_each as (H1 & H2 & H3 & H4 & H5 & H6 & H7 & H8).
  unfold styled. apply codesOK_app; [|apply codesOK_app].
  - destruct st; simpl; repeat constructor; assumption.
  - apply Forall_forall. intros p Hp. apply in_map_iff in Hp.
    destruct Hp as [v [<- _]]. exact I.
  - destruct values; repeat constructor. assumption.
Qed.

Ltac codes_more := fail.

Ltac codes_ok :=
  repeat first
    [ codes_more
    | apply codesOK_styled
    | apply codesOK_app
    | apply Forall_nil
    | apply Forall_cons; [exact I|]
    | match goal with
      | |- codesOK (if ?b then _ else _) => destruct b
      | |- codesOK (match ?o with Some _ => _ | None => _ end) => destruct o
      | |- codesOK (match ?l with [] => _ | _ :: _ => _ end) => destruct l
      end ].

Lemma codesOK_frameDoc t : codesOK (frameDoc t).
Proof. unfold frameDoc. codes_ok. Qed.

Lemma codesOK_traceBody full e : codesOK (traceBody full e).
Proof.
  unfold traceBody. codes_ok. apply codesOK_flat_map. intros. apply codesOK_frameDoc.
Qed.

Lemma codesOK_tracesDoc full entries : codesOK (tracesDoc full entries).
Proof.
  unfold tracesDoc. destruct (shownFrom 0 entries) as [|x xs]; [constructor|].
  apply codesOK_app; [apply codesOK_styled|].
  apply codesOK_flat_map. intros ie _. unfold traceLine.
  codes_ok. apply codesOK_traceBody.
Qed.

Lemma codesOK_moduleDoc full first module : codesOK (moduleDoc full first module).
Proof.
  unfold moduleDoc. destruct module as [|m0 rest]; [constructor|].
  destruct (Trace (finding m0)); [constructor|].
  unfold representativeDoc, moduleLineDoc, foundInDoc, fixedInDoc, platformsDoc.
  codes_ok; apply codesOK_tracesDoc.
Qed.

Lemma codesOK_modulesDoc full byModule :
  forall first, codesOK (modulesDoc full first byModule).
Proof.
  induction byModule as [|m rest IH]; intros first; simpl; [constructor|].
  apply codesOK_app; [apply codesOK_moduleDoc | apply IH].
Qed.

Ltac codes_more ::=
  first [ apply codesOK_modulesDoc | apply codesOK_tracesDoc ].

Lemma codesOK_vulnerabilityDoc full index findings :
  codesOK (vulnerabilityDoc full index findings).
Proof.
  unfold vulnerabilityDoc. destruct findings as [|f0 rest]; [constructor|].
  destruct (OSV f0); [|constructor].
  unfold vulnHeadDoc, wrapDoc. codes_ok.
Qed.

Lemma codesOK_sectionDoc full groups : codesOK (sectionDoc full groups).
Proof.
  unfold sectionDoc. apply codesOK_flat_map. intros. apply codesOK_vulnerabilityDoc.
Qed.

Ltac codes_more ::=
  first [ apply codesOK_sectionDoc | apply codesOK_modulesDoc
        | apply codesOK_tracesDoc ].

Lemma codesOK_byVulnerabilityDoc full findings :
  codesOK (byVulnerabilityDoc full findings).
Proof.
  unfold byVulnerabilityDoc, primaryDoc, informationalDoc.
  apply codesOK_app; [apply codesOK_sectionDoc|].
  destruct (unCalledGroups findings); [constructor|].
  unfold informationalIntro. codes_ok.
Qed.

Lemma codesOK_summaryDoc c : codesOK (summaryDoc c).
Proof. unfold summaryDoc, modulesClause, stdlibClause. codes_ok. Qed.

Lemma codesOK_flushDoc full findings : codesOK (flushDoc full findings).
Proof.
  unfold flushDoc.
  apply codesOK_app; [apply codesOK_byVulnerabilityDoc|].
  apply codesOK_app; [apply codesOK_summaryDoc|]. codes_ok.
Qed.

Lemma codesOK_configDoc config : codesOK (configDoc config).
Proof. unfold configDoc. codes_ok. Qed.

Lemma codesOK_progressDoc progress : codesOK (progressDoc progress).
Proof. unfold progressDoc. codes_ok. Qed.

End Codes.

Section Runs.

Context {pkg : ScanPackage}.

Section ShowAny.

Context {W : Type}.

Lemma Show_fields (show : list string) :
  forall h : TextHandler W,
    w (Show h show) = w h /\ osvs (Show h show) = osvs h /\
    findings (Show h show) = findings h /\ err (Show h show) = err h /\
    showColor (Show h show) = showColor h || wantsColor show /\
    showTraces (Show h show) = showTraces h || wantsTraces show.
Proof.
  induction show as [|s rest IH]; intros h; simpl.
  - now rewrite !orb_false_r.
  - destruct (IH (if (s =? "traces")%string
                  then mkTextHandler (w h) (osvs h) (findings h) (err h) (showColor h) true
                  else if (s =? "color")%string
                       then mkTextHandler (w h) (osvs h) (findings h) (err h) true (showTraces h)
                       else h))
      as (H1 & H2 & H3 & H4 & H5 & H6).
    rewrite H1, H2, H3, H4, H5, H6.
    destruct (String.eqb_spec s "traces") as [->|Nt]; simpl.
    + rewrite orb_true_r. tauto.
    + destruct (s =? "color")%string; simpl; rewrite ?orb_true_r; tauto.
Qed.

End ShowAny.

Lemma validate_hasTrace (f : Finding) :
  validateFindings f = None -> hasTrace (newFindingSummary f) = true.
Proof.
  unfold validateFindings, lacksModulePath, hasTrace. simpl.
  destruct (Trace f); [discriminate | reflexivity].
Qed.

Lemma findingsOf_hasTrace (evs : list event) :
  Forall (fun f => hasTrace f = true) (findingsOf evs).
Proof.
  unfold findingsOf. apply Forall_flat_map. apply Forall_forall. intros ev _.
  destruct ev; try constructor.
  destruct (validateFindings f) eqn:E; constructor; [|constructor].
  now apply validate_hasTrace.
Qed.

Lemma runEvents_buffer (evs : list event) :
  forall h : TextHandler string, err h = None ->
    runEvents h evs
    = Some (mkTextHandler (w h ++ render (showColor h) (eventsDoc evs))
              (osvs h ++ osvsOf evs) (findings h ++ findingsOf evs)
              None (showColor h) (showTraces h)).
Proof.
  induction evs as [|ev rest IH]; intros h He.
  - simpl. rewrite append_nil_r, !app_nil_r. destruct h; simpl in *. now subst.
  - unfold eventsDoc, osvsOf, findingsOf in *.
    destruct ev as [c|p|e|f]; cbn [runEvents flat_map app].
    + rewrite (Emits_Config (showColor h) (showTraces h) c h He eq_refl eq_refl).
      rewrite IH by exact He.
      unfold emit, set_w_err.
      cbn [w osvs findings err showColor showTraces].
      now rewrite render_app, append_assoc.
    + rewrite (Emits_Progress (showColor h) (showTraces h) p h He eq_refl eq_refl).
      rewrite IH by exact He.
      unfold emit, set_w_err.
      cbn [w osvs findings err showColor showTraces].
      now rewrite render_app, append_assoc.
    + rewrite IH by exact He. unfold OSVOp.
      cbn [fst w osvs findings err showColor showTraces].
      now rewrite <- app_assoc.
    + unfold FindingOp. destruct (validateFindings f).
      * cbn [fst app]. now rewrite IH.
      * rewrite IH by exact He. unfold set_findings.
        cbn [fst w osvs findings err showColor showTraces].
        now rewrite <- app_assoc.
Qed.

(** The report of a scan is what [Flush] leaves in the buffer, on the
    handler that holds what the calls wrote, the entries and the accepted
    findings. *)
Lemma report_flush (show : list string) (evs : list event) :
  report show evs
  = match Flush (mkTextHandler (render (wantsColor show) (eventsDoc evs))
                   (osvsOf evs) (findingsOf evs) None
                   (wantsColor show) (wantsTraces show)) with
    | Some (_, h) => Some (w h)
    | None => None
    end.
Proof.
  unfold report, scan.
  destruct (Show_fields show (NewTextHandler EmptyString))
    as (H1 & H2 & H3 & H4 & H5 & H6).
  simpl in *.
  rewrite runEvents_buffer by assumption.
  rewrite H1, H2, H3, H5, H6. simpl.
  destruct (Flush _) as [[r h]|]; reflexivity.
Qed.

(** The report of a scan is the rendering of its document. *)
Lemma report_render (show : list string) (evs : list event) :
  Forall (fun e => hasDB e = true) (osvsOf evs) ->
  report show evs
  = Some (render (wantsColor show) (reportDoc (wantsTraces show) evs)).
Proof.
  intros Hd. rewrite report_flush.
  rewrite Flush_buffer; simpl;
    [|reflexivity|apply findingsOf_hasTrace|exact Hd].
  unfold reportDoc. now rewrite render_app.
Qed.

End Runs.

Example sample_report :
  report (pkg := ansiPackage) ["traces"] sampleEvents
  = Some ("Vulnerability #1: GO-0000-0001" ++ nl
          ++ "    Third-party vulnerability" ++ nl
          ++ "  More info: https://pkg.go.dev/vuln/GO-0000-0001" ++ nl
          ++ "  Module: golang.org/vmod" ++ nl
          ++ "    Found in: golang.org/vmod@v0.0.1" ++ nl
          ++ "    Fixed in: golang.org/vmod@v0.1.3" ++ nl
          ++ "    Platforms: amd" ++ nl
          ++ "    Example traces found:" ++ nl
          ++ "      #1: for function vmod.Vuln" ++ nl
          ++ "        main.main" ++ nl
          ++ "        vmod.Vuln" ++ nl
          ++ nl
          ++ "=== Informational ===" ++ nl
          ++ nl
          ++ "Found 1 vulnerability in packages that you import, but there are no call" ++ nl
          ++ "stacks leading to the use of this vulnerability. You may not need to" ++ nl
          ++ "take any action. See https://pkg.go.dev/golang.org/x/vuln/cmd/govulncheck" ++ nl
          ++ "for details." ++ nl
          ++ nl
          ++ "Vulnerability #1: GO-0000-0002" ++ nl
          ++ "    Stdlib vulnerability" ++ nl
          ++ "  More info: https://pkg.go.dev/vuln/GO-0000-0002" ++ nl
          ++ "  Standard library" ++ nl
          ++ "    Found in: net/http@go0.0.1" ++ nl
          ++ "    Fixed in: N/A" ++ nl
          ++ nl
          ++ "Your code is affected by 1 vulnerability from 1 module." ++ nl
          ++ nl
          ++ "Share feedback at https://go.dev/s/govulncheck-feedback." ++ nl).
Proof. vm_compute. reflexivity. Qed.

Lemma numberFrom_seq {A} (l : list A) :
  forall i, map fst (numberFrom i l)
            = map (fun k => i + Z.of_nat k) (seq 0 (length l)).
Proof.
  induction l as [|x l IH]; intros i; simpl; [reflexivity|].
  f_equal; [lia|]. rewrite IH, <- seq_shift, map_map.
  apply map_ext. intros k. lia.
Qed.

Lemma numberFrom_snd {A} (l : list A) : forall i, map snd (numberFrom i l) = l.
Proof. induction l as [|x l IH]; intros i; simpl; [reflexivity | now rewrite IH]. Qed.

Lemma numberFrom_In {A} (l : list A) :
  forall i k x,
    In (k, x) (numberFrom i l) <->
    i <= k /\ nth_error l (Z.to_nat (k - i)) = Some x.
Proof.
  induction l as [|y l IH]; intros i k x; simpl.
  - split; [tauto|]. intros [_ H]. destruct (Z.to_nat (k - i)); discriminate.
  - rewrite IH. split.
    + intros [E|[Hle Hn]].
      * inversion E; subst. split; [lia|]. now rewrite Z.sub_diag.
      * split; [lia|].
        replace (Z.to_nat (k - i)) with (S (Z.to_nat (k - (i + 1)))) by lia.
        exact Hn.
    + intros [Hle Hn]. destruct (Z.eq_dec k i) as [->|N].
      * left. rewrite Z.sub_diag in Hn. simpl in Hn. congruence.
      * right. split; [lia|].
        replace (Z.to_nat (k - i)) with (S (Z.to_nat (k - (i + 1)))) in Hn by lia.
        exact Hn.
Qed.

(** C1.  [byVulnerability] writes the called groups first, then, when there
    are any, the informational heading and the groups that are not called.
    The groups of each section are those of [groupByVuln] that [isCalled]
    selects (the others for the informational section), in the order of
    [groupByVuln], which is the order in which each vulnerability identity
    was first seen; each section numbers its groups 1, 2, ... on its own:
    group [i] of a section (from 0) starts with [Vulnerability #i+1: ID]. *)
Theorem byVulnerability_sections {pkg : ScanPackage} (h : TextHandler string)
    (fs : list findingSummary) :
  err h = None ->
  Forall (fun f => ready f = true) fs ->
  let full := showTraces h in
  let block := fun ig => vulnerabilityDoc full (fst ig) (snd ig) in
  byVulnerability fs h
  = Some (tt, emit h (render (showColor h)
       (flat_map block (numberFrom 0 (filter isCalled (groupByVuln fs)))
        ++ match filter (fun g => negb (isCalled g)) (groupByVuln fs) with
           | [] => []
           | u :: us =>
               informationalIntro (Z.of_nat (length (u :: us)))
               ++ flat_map block (numberFrom 0 (u :: us))
           end)))
  /\ groupByVuln fs
     = map (fun k => filter (fun f => (vulnID f =? k)%string) fs)
         (firstSeen (map vulnID fs))
  /\ (forall groups : list (list findingSummary),
        map fst (numberFrom 0 groups) = map Z.of_nat (seq 0 (length groups))
        /\ map snd (numberFrom 0 groups) = groups)
  /\ (forall i f0 rest osv0,
        OSV f0 = Some osv0 ->
        exists tail,
          render false (vulnerabilityDoc full i (f0 :: rest))
          = "Vulnerability #" ++ itoa (i + 1) ++ ": " ++ ID osv0 ++ nl ++ tail).
Proof.
  intros He Hw full block. split; [|split; [|split]].
  - rewrite (Emits_byVulnerability (showColor h) (showTraces h) fs Hw h He eq_refl eq_refl).
    reflexivity.
  - reflexivity.
  - intros groups. split; [|apply numberFrom_snd].
    rewrite numberFrom_seq. apply map_ext. intros k. lia.
  - intros i f0 rest osv0 Eo. unfold vulnerabilityDoc. rewrite Eo.
    unfold vulnHeadDoc. rewrite !render_app.
    eexists.
    assert (Hs : forall st v, render false (styled st [VString v]) = v).
    { intros st v. unfold styled. rewrite !render_app, render_codes_off.
      simpl. unfold render. simpl. now rewrite !append_nil_r. }
    rewrite !Hs. unfold render at 1 2. simpl.
    rewrite ?append_nil_r, ?append_assoc. simpl. reflexivity.
Qed.

Lemma byVulnerability_sections_witness :
  byVulnerability (pkg := ansiPackage) sampleFindings emptyBuffer
  = Some (tt, emit emptyBuffer (render false
       (byVulnerabilityDoc (pkg := ansiPackage) false sampleFindings))).
Proof.
  refine (proj1 (byVulnerability_sections (pkg := ansiPackage) emptyBuffer
                   sampleFindings eq_refl _)).
  repeat constructor.
Defined.

Lemma reach_log {W} {writer : Writer W} (h h' : TextHandler (Logged W)) :
  reach h h' -> err h = None ->
  exists calls, snd (w h') = (snd (w h) ++ calls)%list /\ stickyLog calls (err h').
Proof.
  intros R He. induction R as [|h1 p w' n e R IH Hn Hw].
  - exists []. rewrite app_nil_r, He. split; [reflexivity | constructor].
  - destruct IH as [calls [Hc Hs]]. rewrite Hn in Hs. simpl in Hs.
    unfold Write, LoggedWriter in Hw.
    destruct (Write (fst (w h1)) p) as [[w1 n1] e1].
    inversion Hw; subst w' n e. clear Hw.
    exists (calls ++ [(p, e1)])%list. simpl. split.
    + now rewrite Hc, app_assoc.
    + destruct e1 as [e1|]; simpl.
      * exists calls, p. split; [reflexivity | assumption].
      * apply Forall_app. split; [assumption|]. repeat constructor.
Qed.

(** The first failing call of a log is determined. *)
Lemma first_failure (pre pre' post : list (string * option error)) p p' e e' :
  Forall callOk pre -> Forall callOk pre' ->
  (pre ++ (p, Some e) :: post = pre' ++ [(p', Some e')])%list ->
  post = [] /\ e = e' /\ p = p' /\ pre = pre'.
Proof.
  revert pre'. induction pre as [|c pre IH]; intros pre' H1 H2 E.
  - destruct pre' as [|c' pre']; simpl in E.
    + inversion E. auto.
    + inversion E; subst c'. apply Forall_cons_iff in H2.
      destruct H2 as [H2 _]. discriminate H2.
  - apply Forall_cons_iff in H1. destruct H1 as [Hc H1].
    destruct pre' as [|c' pre']; simpl in E.
    + inversion E; subst c. 
      * discriminate Hc.
    + inversion E; subst c'. apply Forall_cons_iff in H2. destruct H2 as [_ H2].
      destruct (IH pre' H1 H2 H3) as (A & B & C & D).
      subst. auto.
Qed.

(** The groups of [groupByVuln] hold a called one exactly when [isCalled]
    holds of the findings. *)
Lemma called_group (fs : list findingSummary) :
  isCalled fs = true <->
  exists f g, In f g /\ In g (groupByVuln fs) /\ isCalled g = true.
Proof.
  rewrite <- (isCalled_groupBy vulnID), existsb_exists. fold groupByVuln. split.
  - intros [g [Hg Hcg]].
    pose proof (groupBy_nonempty vulnID fs) as Hne.
    rewrite Forall_forall in Hne. specialize (Hne g Hg).
    destruct g as [|f g']; [congruence|].
    exists f, (f :: g'). split; [now left | split; assumption].
  - intros [f [g [_ [Hg Hcg]]]]. exists g. split; assumption.
Qed.

Lemma isCalled_compact (fs : list findingSummary) :
  isCalled fs = true <-> exists f, In f fs /\ Compact f <> EmptyString.
Proof.
  unfold isCalled. rewrite existsb_exists. split.
  - intros [f [Hf Hc]]. exists f. split; [exact Hf|].
    intros E. rewrite E in Hc. discriminate.
  - intros [f [Hf Hc]]. exists f. split; [exact Hf|].
    destruct (Compact f); [congruence | reflexivity].
Qed.

(** When every call of the log succeeded, no error is recorded. *)
Lemma stickyLog_ok (calls : list (string * option error)) (e : option error) :
  stickyLog calls e -> Forall callOk calls -> e = None.
Proof.
  destruct e as [e|]; [|reflexivity]. simpl.
  intros [pre [p [E _]]] H. subst calls. apply Forall_app in H.
  destruct H as [_ H]. apply Forall_cons_iff in H. destruct H as [H _].
  discriminate H.
Qed.



Example logged_flush :
  match Flush (pkg := ansiPackage) loggingHandler with
  | Some (r, h') =>
      r = Some errVulnerabilitiesFound /\ err h' = None /\
      forallb (fun c => match snd c with None => true | Some _ => false end)
        (snd (w h')) = true
  | None => False
  end.
Proof. vm_compute. repeat split. Qed.



Example failing_flush :
  match Flush (pkg := ansiPackage) failingHandler with
  | Some (r, h') =>
      r = Some (errWrite 5) /\
      snd (w h') = [("Vulnerability", None); (" #", None); ("1", Some (errWrite 5))]
  | None => False
  end.
Proof. vm_compute. split; reflexivity. Qed.

Lemma render_styled_off {pkg : ScanPackage} st (values : list value) :
  render false (styled st values) = printed values.
Proof.
  unfold styled. rewrite !render_app, render_codes_off.
  replace (render false match values with [] => [] | _ :: _ => [Code colorReset] end)
    with EmptyString by (destruct values; reflexivity).
  rewrite append_nil_r. simpl. unfold render, printed. now rewrite map_map.
Qed.

(** C3.  [summary] writes the sentence of [summaryText], with the two counts
    styled when colour is on: the fixed sentence when no vulnerability is
    called; otherwise the count sentence, singular for 1, the module clause
    left out when no module is counted, the standard-library clause present
    exactly when [StdlibCalled], and [ and] only between the two clauses.
    The counts are those of [counters]; a count is not negative. *)
Theorem summary_sentence {pkg : ScanPackage} (h : TextHandler string)
    (fs : list findingSummary) :
  err h = None ->
  0 <= ModulesCalled (counters fs) ->
  summary fs h
  = Some (tt, emit h (render (showColor h) (summaryDoc (counters fs))))
  /\ render false (summaryDoc (counters fs)) = summaryText (counters fs).
Proof.
  intros He Hm. split.
  - exact (Emits_summary (showColor h) (showTraces h) fs h He eq_refl eq_refl).
  - unfold summaryDoc, summaryText, modulesClause, stdlibClause.
    destruct (VulnerabilitiesCalled (counters fs) =? 0); [reflexivity|].
    rewrite !render_app, !render_styled_off.
    destruct (ModulesCalled (counters fs) =? 0) eqn:E0.
    + apply Z.eqb_eq in E0. rewrite E0. simpl.
      destruct (StdlibCalled (counters fs)); unfold render, printed; simpl;
        rewrite ?append_nil_r, ?append_assoc; reflexivity.
    + apply Z.eqb_neq in E0.
      replace (0 <? ModulesCalled (counters fs)) with true
        by (symmetry; apply Z.ltb_lt; lia).
      rewrite !render_app, !render_styled_off.
      destruct (StdlibCalled (counters fs)); unfold render, printed; simpl;
        rewrite ?append_nil_r, ?append_assoc; simpl;
        rewrite ?append_nil_r, ?append_assoc; reflexivity.
Qed.

Lemma summary_sentence_witness :
  summary (pkg := ansiPackage) [summaryHTTP; summaryVmod] emptyBuffer
  = Some (tt, emit emptyBuffer
       ("Your code is affected by 1 vulnerability from 1 module." ++ nl)).
Proof.
  refine (proj1 (summary_sentence (pkg := ansiPackage) emptyBuffer
                   [summaryHTTP; summaryVmod] eq_refl _)).
  vm_compute. discriminate.
Defined.

(** On a buffer [wrap] writes the lines of [wrapLines]. *)
Lemma wrap_buffer {pkg : ScanPackage} (h : TextHandler string)
    (indent s : string) (maxWidth : Z) :
  err h = None ->
  wrap indent s maxWidth h
  = Some (tt, emit h (renderLines indent (wrapLines indent maxWidth (Fields s)))).
Proof.
  intros He.
  rewrite (Emits_wrap (showColor h) (showTraces h) indent s maxWidth h He eq_refl eq_refl).
  unfold wrapDoc, render. simpl. now rewrite append_nil_r.
Qed.

(** C4, as amended.  [wrap] writes the words of the body in lines, each the
    indent and words separated by one space, lines separated by a newline.
    A line does not exceed the width, unless it is the indent and a single
    word that together exceed it; no word is split.  The lines hold the
    words of the body in order, and when the indent is white space the words
    of the text written are the words of the body. *)
Theorem wrap_lines {pkg : ScanPackage} (h : TextHandler string)
    (indent s : string) (maxWidth : Z) :
  err h = None ->
  let lines := wrapLines indent maxWidth (Fields s) in
  wrap indent s maxWidth h = Some (tt, emit h (renderLines indent lines)) /\
  concat lines = Fields s /\
  Forall (fun line =>
            line <> [] /\
            (len (renderLine indent line) <= maxWidth \/
             exists f, line = [f] /\ maxWidth < len indent + len f)) lines /\
  (Fields indent = [] -> Fields (renderLines indent lines) = Fields s).
Proof.
  intros He lines. split; [|split; [|split]].
  - now apply wrap_buffer.
  - apply wrapLines_concat.
  - apply wrapLines_fits.
  - intros Hb. unfold lines.
    rewrite Fields_renderLines; [apply wrapLines_concat | exact Hb |].
    apply wrapLines_words.
Qed.

Lemma wrap_lines_witness :
  wrap (pkg := ansiPackage) "    " "a maliciously crafted path" 20 emptyBuffer
  = Some (tt, emit emptyBuffer
       ("    a maliciously" ++ nl ++ "    crafted path")).
Proof.
  exact (proj1 (wrap_lines (pkg := ansiPackage) emptyBuffer "    "
                  "a maliciously crafted path" 20 eq_refl)).
Defined.

(** C4, the claim as stated fails.  With indent of four spaces and width 10
    the word [abcdefgh], which is not longer than the width, is written on a
    line of 12 bytes; and with the indent [> ] the text written for the body
    [a] has the words [>] and [a]. *)
Lemma wrap_claim_counterexample :
  (wrap (pkg := ansiPackage) "    " "abcdefgh" 10 emptyBuffer
   = Some (tt, emit emptyBuffer "    abcdefgh")
   /\ Fields "abcdefgh" = ["abcdefgh"]
   /\ len "abcdefgh" <= 10 /\ 10 < len "    abcdefgh")
  /\ (wrap (pkg := ansiPackage) "> " "a" 10 emptyBuffer
      = Some (tt, emit emptyBuffer "> a")
      /\ Fields "> a" = [">"; "a"] /\ Fields "a" = ["a"]).
Proof. vm_compute. repeat split; discriminate. Qed.

(** C9.  A finding that lacks a module path, or one of whose frames lacks a
    symbol, is rejected: [Finding] returns an error and the handler is
    unchanged; a valid finding submitted next is appended to the findings
    and accepted. *)
Theorem Finding_rejects {pkg : ScanPackage} {W} (h : TextHandler W) (f : Finding) :
  lacksModulePath f = true \/ lacksSymbol f = true ->
  (exists e, FindingOp h f = (h, Some e)) /\
  (forall g, lacksModulePath g = false -> lacksSymbol g = false ->
     FindingOp (fst (FindingOp h f)) g
     = (set_findings h (findings h ++ [newFindingSummary g]), None)).
Proof.
  intros H.
  assert (E : exists e, validateFindings f = Some e).
  { unfold validateFindings. destruct (lacksModulePath f); [eauto|].
    destruct H as [H|H]; [discriminate|]. rewrite H. eauto. }
  destruct E as [e E]. unfold FindingOp at 1 3. rewrite E. split; [eauto|].
  intros g H1 H2. simpl. unfold FindingOp, validateFindings. now rewrite H1, H2.
Qed.

Lemma Finding_rejects_witness :
  (exists e, FindingOp (pkg := ansiPackage) emptyBuffer
               (mkFinding "GO-0000-0001" EmptyString []) = (emptyBuffer, Some e)) /\
  (forall g, lacksModulePath g = false -> lacksSymbol g = false ->
     FindingOp (pkg := ansiPackage)
       (fst (FindingOp (pkg := ansiPackage) emptyBuffer
               (mkFinding "GO-0000-0001" EmptyString []))) g
     = (set_findings emptyBuffer
          (findings emptyBuffer ++ [newFindingSummary (pkg := ansiPackage) g]), None)).
Proof.
  apply (Finding_rejects (pkg := ansiPackage) emptyBuffer).
  left. reflexivity.
Defined.

(** C10.  [traces] prints one numbered trace for each finding of the
    sub-group that has a compact trace, and the number is the position of
    the finding in the sub-group, counted from 1: a finding without a
    compact trace is skipped and its position is not reused.  The heading
    is printed before the first trace, and only when there is one. *)
Theorem traces_numbering {pkg : ScanPackage} (h : TextHandler string)
    (entries : list findingSummary) :
  err h = None ->
  Forall (fun e => traceable (showTraces h) e = true) entries ->
  let full := showTraces h in
  let shown :=
    filter (fun ie => negb (isEmpty (Compact (snd ie)))) (numberFrom 0 entries) in
  traces entries h
  = Some (tt, emit h (render (showColor h)
       (match shown with
        | [] => []
        | _ :: _ =>
            (styled keyStyle [VString ("    Example traces found:" ++ nl)]
             ++ flat_map (fun ie =>
                            [Text "      #"; Text (itoa (fst ie + 1)); Text ": "]
                            ++ traceBody full (snd ie)) shown)%list
        end)))
  /\ (forall i e,
        In (i, e) shown <->
        0 <= i /\ nth_error entries (Z.to_nat i) = Some e
        /\ isEmpty (Compact e) = false)
  /\ (shown = [] <-> isCalled entries = false).
Proof.
  intros He Hw full shown. split; [|split].
  - rewrite (Emits_traces (showColor h) (showTraces h) entries Hw h He eq_refl eq_refl).
    unfold tracesDoc, shownFrom, tracesHeader. fold shown.
    destruct shown; reflexivity.
  - intros i e. unfold shown. rewrite filter_In, numberFrom_In. simpl.
    rewrite Z.sub_0_r, negb_true_iff. tauto.
  - unfold shown. clear. generalize 0.
    induction entries as [|e rest IH]; intros i; simpl; [tauto|].
    unfold isCalled in *. simpl.
    destruct (isEmpty (Compact e)); simpl; [apply IH|].
    split; discriminate.
Qed.

(** The first finding of the sub-group has no compact trace: the list
    starts at 2. *)
Lemma traces_numbering_witness :
  traces (pkg := ansiPackage)
    [mkFindingSummary findingVmod EmptyString (Some entryVmod); summaryVmod2]
    emptyBuffer
  = Some (tt, emit emptyBuffer
       ("    Example traces found:" ++ nl ++ "      #2: vmod.Vuln2" ++ nl)).
Proof.
  refine (proj1 (traces_numbering (pkg := ansiPackage) emptyBuffer
    [mkFindingSummary findingVmod EmptyString (Some entryVmod); summaryVmod2]
    eq_refl _)).
  repeat constructor.
Defined.

(** C5, as amended.  [vulnerability] writes the head of the group and then
    one block for each module sub-group, the sub-groups being those of
    [groupByModule], in the order in which each module was first seen.  The
    module, the package and the found version printed for a sub-group are
    those of frame 0 of the trace of its first finding (the frame text.go
    names [lastFrame]); the fixed version is the one of that first finding,
    and the platforms are those of its entry.  The other findings of the
    sub-group only add traces. *)
Theorem vulnerability_modules {pkg : ScanPackage} (h : TextHandler string)
    (index : Z) (findings : list findingSummary) :
  err h = None ->
  findings <> [] ->
  Forall (fun f => ready f = true) findings ->
  let full := showTraces h in
  vulnerability index findings h
  = Some (tt, emit h (render (showColor h) (vulnerabilityDoc full index findings)))
  /\ (forall f0 rest osv0,
        findings = f0 :: rest -> OSV f0 = Some osv0 ->
        vulnerabilityDoc full index findings
        = (vulnHeadDoc index (isCalled findings) osv0
           ++ modulesDoc full true (groupByModule findings)
           ++ [Text nl])%list)
  /\ groupByModule findings
     = map (fun k => filter (fun f => (moduleID f =? k)%string) findings)
         (firstSeen (map moduleID findings))
  /\ (forall first m rest,
        modulesDoc full first (m :: rest)
        = (moduleDoc full first m ++ modulesDoc full false rest)%list)
  /\ (forall first m0 rest lastFrame frames,
        Trace (finding m0) = lastFrame :: frames ->
        moduleDoc full first (m0 :: rest)
        = ((if first then [] else [Text nl])
           ++ representativeDoc lastFrame (FixedVersion (finding m0)) (OSV m0)
           ++ tracesDoc full (m0 :: rest))%list).
Proof.
  intros He Hne Hw full. split; [|split; [|split; [|split]]].
  - exact (Emits_vulnerability (showColor h) (showTraces h) index findings
             Hne Hw h He eq_refl eq_refl).
  - intros f0 rest osv0 -> Eo. unfold vulnerabilityDoc. now rewrite Eo.
  - reflexivity.
  - reflexivity.
  - intros first m0 rest lastFrame frames Et. unfold moduleDoc. now rewrite Et.
Qed.

Lemma vulnerability_modules_witness :
  vulnerability (pkg := ansiPackage) 0 [summaryVmod] emptyBuffer
  = Some (tt, emit emptyBuffer
       (render false (vulnerabilityDoc (pkg := ansiPackage) false 0 [summaryVmod]))).
Proof.
  refine (proj1 (vulnerability_modules (pkg := ansiPackage) emptyBuffer 0
                   [summaryVmod] eq_refl _ _)).
  - discriminate.
  - repeat constructor.
Defined.

(** C5, the claim as stated fails.  Two sub-groups whose first findings have
    the same trace, hence the same frames, are printed with different fixed
    versions: the fixed version is not taken from a frame.  The frame read
    is element 0 of the trace ([golang.org/vmod]), not its last element
    ([example.com/app]). *)
Lemma vulnerability_modules_counterexample :
  Trace (finding fixedA) = Trace (finding fixedB)
  /\ module_body (pkg := ansiPackage) [fixedA] true emptyBuffer
     = Some (tt, emit emptyBuffer
          ("  Module: golang.org/vmod" ++ nl
           ++ "    Found in: golang.org/vmod@v0.0.1" ++ nl
           ++ "    Fixed in: golang.org/vmod@v0.1.3" ++ nl
           ++ "    Platforms: amd" ++ nl))
  /\ module_body (pkg := ansiPackage) [fixedB] true emptyBuffer
     = Some (tt, emit emptyBuffer
          ("  Module: golang.org/vmod" ++ nl
           ++ "    Found in: golang.org/vmod@v0.0.1" ++ nl
           ++ "    Fixed in: N/A" ++ nl
           ++ "    Platforms: amd" ++ nl)).
Proof. vm_compute. repeat split. Qed.

(** C6, as amended.  For a module sub-group whose first finding has frame 0
    [lastFrame]: the line [Found in:] is always the path, [@] and the found
    version string, with no other case; the line [Fixed in:] is [N/A] when
    the fixed version string is empty and the path, [@] and the fixed
    version string otherwise.  The version strings are those
    [moduleVersionString] returns; the path is the package of the frame for
    the standard library and its module otherwise. *)
Theorem module_versions {pkg : ScanPackage} (h : TextHandler string)
    (m0 : findingSummary) (rest : list findingSummary) (lastFrame : Frame)
    (frames : list Frame) (first : bool) :
  err h = None ->
  Trace (finding m0) = lastFrame :: frames ->
  Forall (fun e => traceable (showTraces h) e = true) (m0 :: rest) ->
  let path := if (Module lastFrame =? GoStdModulePath)%string
              then Package lastFrame else Module lastFrame in
  let found := moduleVersionString (Module lastFrame) (Version lastFrame) in
  let fixed := moduleVersionString (Module lastFrame) (FixedVersion (finding m0)) in
  module_body (m0 :: rest) first h
  = Some (tt, emit h (render (showColor h)
       ((if first then [] else [Text nl])
        ++ moduleLineDoc lastFrame
        ++ (styled keyStyle [VString "Found in: "]
            ++ [Text path; Text "@"; Text found; Text (nl ++ "    ")])
        ++ (styled keyStyle [VString "Fixed in: "]
            ++ (if isEmpty fixed then [Text "N/A"]
                else [Text path; Text "@"; Text fixed])
            ++ [Text nl])
        ++ platformsDoc (platforms (Module lastFrame) (OSV m0))
        ++ tracesDoc (showTraces h) (m0 :: rest))%list)).
Proof.
  intros He Et Hw path found fixed.
  assert (Hm0 : hasTrace m0 = true) by (unfold hasTrace; now rewrite Et).
  rewrite (Emits_module_body (showColor h) (showTraces h) m0 rest first Hm0 Hw
             h He eq_refl eq_refl).
  unfold moduleDoc. rewrite Et.
  unfold representativeDoc, foundInDoc, fixedInDoc, reprPath.
  fold path. fold found. fold fixed.
  now rewrite <- !app_assoc.
Qed.

Lemma module_versions_witness :
  module_body (pkg := ansiPackage) [unversioned] true emptyBuffer
  = Some (tt, emit emptyBuffer
       ("  Standard library" ++ nl
        ++ "    Found in: net/http@" ++ nl
        ++ "    Fixed in: N/A" ++ nl)).
Proof.
  refine (module_versions (pkg := ansiPackage) emptyBuffer unversioned []
            (mkFrame "stdlib" EmptyString "net/http" "http.Vuln2" None) []
            true eq_refl eq_refl _).
  repeat constructor.
Defined.

(** C6, the claim as stated fails.  The found version of the finding is
    absent, and the line reads [Found in: net/http@], not [Found in: N/A]. *)
Lemma module_versions_counterexample :
  Version (mkFrame "stdlib" EmptyString "net/http" "http.Vuln2" None) = EmptyString
  /\ module_body (pkg := ansiPackage) [unversioned] true emptyBuffer
     = Some (tt, emit emptyBuffer
          ("  Standard library" ++ nl
           ++ "    Found in: net/http@" ++ nl
           ++ "    Fixed in: N/A" ++ nl))
  /\ module_body (pkg := ansiPackage) [unversioned] true emptyBuffer
     <> Some (tt, emit emptyBuffer
          ("  Standard library" ++ nl
           ++ "    Found in: N/A" ++ nl
           ++ "    Fixed in: N/A" ++ nl)).
Proof. vm_compute. repeat split. discriminate. Qed.

Lemma codesOK_eventsDoc {pkg : ScanPackage} (evs : list event) :
  styleCodesOK pkg = true -> codesOK (eventsDoc evs).
Proof.
  intros Hc. unfold eventsDoc. apply codesOK_flat_map. intros ev _.
  destruct ev as [c|p|e|f].
  - now apply codesOK_configDoc.
  - now apply codesOK_progressDoc.
  - apply Forall_nil.
  - apply Forall_nil.
Qed.




(** ** Further properties of text.go *)
Lemma Show_record {W} (h : TextHandler W) (show : list string) :
  Show h show
  = mkTextHandler (w h) (osvs h) (findings h) (err h)
      (showColor h || wantsColor show) (showTraces h || wantsTraces show).
Proof.
  destruct (Show_fields show h) as (H1 & H2 & H3 & H4 & H5 & H6).
  destruct (Show h show); simpl in *. now subst.
Qed.

(** [Show] only turns options on: an option is on afterwards when it was on
    before or its token is in the list; every other token is ignored, and
    the sink, the entries, the findings and the recorded error stay. *)
Theorem Show_options {W} (h : TextHandler W) (show : list string) :
  Show h show
  = mkTextHandler (w h) (osvs h) (findings h) (err h)
      (showColor h || existsb (fun s => (s =? "color")%string) show)
      (showTraces h || existsb (fun s => (s =? "traces")%string) show).
Proof. apply Show_record. Qed.

(** Two calls of [Show] are one call with both lists, in either order:
    the tokens add up and their order does not matter. *)
Theorem Show_compose {W} (h : TextHandler W) (a b : list string) :
  Show (Show h a) b = Show h (a ++ b) /\ Show h (a ++ b) = Show h (b ++ a).
Proof.
  rewrite !Show_record. unfold wantsColor, wantsTraces. simpl.
  rewrite !existsb_app.
  split; f_equal;
    repeat match goal with
    | |- context [existsb ?f ?l] => destruct (existsb f l)
    end;
    destruct (showColor h), (showTraces h); reflexivity.
Qed.

(** On a buffer without a recorded error [Config] returns no error and
    writes one line and a blank line: the Go version and the scanner are
    named only when set, the scanner version only together with the scanner
    name, the modification time only when there is one.  With colour on,
    the Go version and the scanner name are styled and nothing else is. *)
Theorem Config_line {pkg : ScanPackage} (h : TextHandler string) (config : Config) :
  err h = None ->
  ConfigOp config h
  = Some (None, emit h (render (showColor h) (configDoc config)))
  /\ render false (configDoc config) = configText config
  /\ render true (configDoc config)
     = "Using "
       ++ (if isEmpty (GoVersion config) then EmptyString
           else colorBold ++ GoVersion config ++ colorReset ++ " and ")
       ++ (if isEmpty (ScannerName config) then EmptyString
           else colorBold ++ ScannerName config ++ colorReset
                ++ (if isEmpty (ScannerVersion config) then EmptyString
                    else "@" ++ ScannerVersion config)
                ++ " with ")
       ++ "vulnerability data from " ++ DB config
       ++ match DBLastModified config with
          | Some t => " (last modified " ++ timeString t ++ ")"
          | None => EmptyString
          end
       ++ "." ++ nl ++ nl.
Proof.
  intros He. split; [|split].
  - exact (Emits_Config (showColor h) (showTraces h) config h He eq_refl eq_refl).
  - unfold configDoc, configText.
    destruct (isEmpty (GoVersion config)), (isEmpty (ScannerName config)),
      (isEmpty (ScannerVersion config)), (DBLastModified config);
      unfold render; simpl; rewrite ?append_nil_r, ?append_assoc; simpl;
      rewrite ?append_nil_r, ?append_assoc; reflexivity.
  - unfold configDoc.
    destruct (isEmpty (GoVersion config)), (isEmpty (ScannerName config)),
      (isEmpty (ScannerVersion config)), (DBLastModified config);
      unfold render; simpl; rewrite ?append_nil_r, ?append_assoc; simpl;
      rewrite ?append_nil_r, ?append_assoc; reflexivity.
Qed.

Lemma Config_line_witness :
  ConfigOp (pkg := ansiPackage) sampleConfig emptyBuffer
  = Some (None, emit emptyBuffer
       ("Using go1.18 and govulncheck@v0.0.0 with vulnerability data from "
        ++ "testdata/vulndb-v1 (last modified 1609459200)." ++ nl ++ nl)).
Proof.
  exact (proj1 (Config_line (pkg := ansiPackage) emptyBuffer sampleConfig eq_refl)).
Defined.

Lemma EndsErr_getErr {W} : EndsErr (@getErr W).
Proof. intros h r h' E. unfold getErr in E. now inversion E. Qed.

Lemma EndsErr_bind {W A} (m : M W A) (k : A -> M W (option error)) :
  (forall a, EndsErr (k a)) -> EndsErr (bind m k).
Proof.
  intros Hk h r h' E. unfold bind in E.
  destruct (m h) as [[a h1]|]; [|discriminate]. exact (Hk a h1 r h' E).
Qed.

Lemma EndsErr_Config {pkg : ScanPackage} {W} {writer : Writer W} (config : Config) :
  EndsErr (ConfigOp (W := W) config).
Proof.
  unfold ConfigOp. repeat (apply EndsErr_bind; intros ?). apply EndsErr_getErr.
Qed.

Lemma EndsErr_Progress {pkg : ScanPackage} {W} {writer : Writer W}
    (progress : Progress) :
  EndsErr (ProgressOp (W := W) progress).
Proof.
  unfold ProgressOp. repeat (apply EndsErr_bind; intros ?). apply EndsErr_getErr.
Qed.

(** Whatever the sink: once an error is recorded, [Config] and [Progress]
    write nothing, leave the handler as it is and return that error. *)
Theorem Config_Progress_after_error {pkg : ScanPackage} {W} {writer : Writer W}
    (h : TextHandler W) (e : error) (config : Config) (progress : Progress) :
  err h = Some e ->
  ConfigOp config h = Some (Some e, h) /\ ProgressOp progress h = Some (Some e, h).
Proof.
  intros He. split.
  - destruct (Runs_Config config h) as [r [h' [E R]]].
    pose proof (reach_sticky _ _ _ R He) as ->.
    pose proof (EndsErr_Config config _ _ _ E) as ->. now rewrite <- He.
  - destruct (Runs_Progress progress h) as [r [h' [E R]]].
    pose proof (reach_sticky _ _ _ R He) as ->.
    pose proof (EndsErr_Progress progress _ _ _ E) as ->. now rewrite <- He.
Qed.

Lemma Config_Progress_after_error_witness :
  ConfigOp (pkg := ansiPackage) sampleConfig
    (mkTextHandler EmptyString [] [] (Some (errWrite 5)) false false)
  = Some (Some (errWrite 5),
          mkTextHandler EmptyString [] [] (Some (errWrite 5)) false false).
Proof.
  exact (proj1 (Config_Progress_after_error (pkg := ansiPackage)
                  (mkTextHandler EmptyString [] [] (Some (errWrite 5)) false false)
                  (errWrite 5) sampleConfig (mkProgress "x") eq_refl)).
Defined.

(** [OSV] and [Finding] commute: the handler after an entry and a finding is
    the same in both orders, and [Finding] returns the same error.  [OSV]
    never returns an error. *)
Theorem OSV_Finding_commute {pkg : ScanPackage} {W} (h : TextHandler W)
    (entry : Entry) (f : Finding) :
  fst (OSVOp (fst (FindingOp h f)) entry) = fst (FindingOp (fst (OSVOp h entry)) f)
  /\ snd (FindingOp (fst (OSVOp h entry)) f) = snd (FindingOp h f)
  /\ snd (OSVOp h entry) = None.
Proof.
  unfold OSVOp, FindingOp. destruct (validateFindings f); simpl; auto.
Qed.

Lemma eventsDoc_writesOf {pkg : ScanPackage} (evs : list event) :
  eventsDoc (writesOf evs) = eventsDoc evs.
Proof.
  unfold eventsDoc, writesOf. induction evs as [|ev rest IH]; [reflexivity|].
  destruct ev; simpl; now rewrite IH.
Qed.

Lemma findingsOf_submitted {pkg : ScanPackage} (evs : list event) :
  findingsOf evs = findingsOf (map EvFinding (submittedOf evs)).
Proof.
  unfold findingsOf, submittedOf. induction evs as [|ev rest IH]; [reflexivity|].
  destruct ev; simpl; try exact IH.
  rewrite IH. reflexivity.
Qed.

(** The report does not depend on how the entries, the findings and the
    calls that write are interleaved: two sequences of calls with the same
    entries in the same order, the same findings in the same order and the
    same [Config] and [Progress] calls in the same order give the same
    report. *)
Theorem report_interleaving {pkg : ScanPackage} (show : list string)
    (evs evs' : list event) :
  osvsOf evs = osvsOf evs' ->
  submittedOf evs = submittedOf evs' ->
  writesOf evs = writesOf evs' ->
  report show evs = report show evs'.
Proof.
  intros Ho Hf Hw. rewrite !report_flush.
  rewrite <- (eventsDoc_writesOf evs), <- (eventsDoc_writesOf evs'), Hw, Ho.
  rewrite (findingsOf_submitted evs), (findingsOf_submitted evs'), Hf.
  reflexivity.
Qed.

Lemma report_interleaving_witness :
  report (pkg := ansiPackage) []
    [EvFinding findingVmod; EvOSV entryVmod; EvProgress (mkProgress "Scanning")]
  = report (pkg := ansiPackage) []
    [EvProgress (mkProgress "Scanning"); EvOSV entryVmod; EvFinding findingVmod].
Proof.
  apply (report_interleaving (pkg := ansiPackage)); reflexivity.
Defined.

(** [print] stops at the first operand whose write fails: the operands
    before it were written, the error is recorded, no later operand reaches
    the sink, and the count returned is the sum of the counts the sink
    returned, that of the failing write included. *)
Theorem print_stops_at_failure {pkg : ScanPackage} {W} {writer : Writer W}
    (h : TextHandler W) (v : value) (rest : list value) w' n e :
  err h = None ->
  Write (w h) (Fprint v) = (w', n, Some e) ->
  print (v :: rest) h = Some (n, set_w_err h w' (Some e)).
Proof.
  intros He Hw. unfold print. simpl. rewrite He, Hw.
  destruct rest; simpl; reflexivity.
Qed.

Lemma print_stops_at_failure_witness :
  print (pkg := ansiPackage) [VString "a"; VString "b"]
    (mkTextHandler (0%nat, EmptyString) [] [] None false false)
  = Some (0, mkTextHandler (0%nat, EmptyString) [] [] (Some (errWrite 5)) false false).
Proof.
  exact (print_stops_at_failure (pkg := ansiPackage)
           (mkTextHandler (0%nat, EmptyString) [] [] None false false)
           (VString "a") [VString "b"] (0%nat, EmptyString) 0 (errWrite 5)
           eq_refl eq_refl).
Defined.

(** On a buffer without a recorded error [print] appends the text of its
    operands in order and returns the number of bytes it appended. *)
Theorem print_counts_bytes {pkg : ScanPackage} (h : TextHandler string)
    (values : list value) :
  err h = None ->
  exists h',
    print values h = Some (len (w h') - len (w h), h') /\
    w h' = w h ++ cat (map Fprint values) /\ err h' = None.
Proof.
  intros He. exists (emit h (printed values)).
  unfold print. rewrite print_loop_buffer by exact He.
  split; [|split; [reflexivity | exact He]].
  f_equal. f_equal. simpl. rewrite len_append. lia.
Qed.

Lemma print_counts_bytes_witness :
  exists h',
    print (pkg := ansiPackage) [VString " #"; VInt 12; VString ": "] emptyBuffer
    = Some (len (w h') - len (w emptyBuffer), h') /\
    w h' = w emptyBuffer
           ++ cat (map (Fprint (pkg := ansiPackage)) [VString " #"; VInt 12; VString ": "])
    /\ err h' = None.
Proof.
  exact (print_counts_bytes (pkg := ansiPackage) emptyBuffer
           [VString " #"; VInt 12; VString ": "] eq_refl).
Defined.

(** With colour on, [style] writes the codes of the style, the operands,
    and one reset code, unless there is no operand: then it writes the
    codes and no reset.  With colour off it writes the operands only. *)
Theorem style_brackets {pkg : ScanPackage} (h : TextHandler string)
    (st : styleKind) (values : list value) :
  err h = None ->
  style st values h
  = Some (tt, emit h
       (if showColor h
        then cat (styleCodes st) ++ cat (map Fprint values)
             ++ match values with
                | [] => EmptyString
                | _ :: _ => colorReset
                end
        else cat (map Fprint values))).
Proof.
  intros He.
  rewrite (Emits_style (showColor h) (showTraces h) st values h He eq_refl eq_refl).
  f_equal. f_equal. f_equal.
  destruct (showColor h).
  - unfold styled. rewrite !render_app, render_codes. f_equal.
    unfold render. rewrite map_map. simpl. f_equal.
    destruct values; simpl; [reflexivity | now rewrite append_nil_r].
  - rewrite render_styled_off. reflexivity.
Qed.

Lemma style_brackets_witness :
  style (pkg := ansiPackage) osvCalledStyle [VString "GO-0000-0001"]
    (mkTextHandler EmptyString [] [] None true false)
  = Some (tt, emit (mkTextHandler EmptyString [] [] None true false)
       (sgr "1" ++ sgr "31" ++ "GO-0000-0001" ++ sgr "0")).
Proof.
  exact (style_brackets (pkg := ansiPackage)
           (mkTextHandler EmptyString [] [] None true false)
           osvCalledStyle [VString "GO-0000-0001"] eq_refl).
Defined.

(** ** Edge cases of wrap *)
(** A body without a word writes nothing, not even the indent: no call
    reaches the sink, whatever the sink. *)
Theorem wrap_blank {pkg : ScanPackage} {W} {writer : Writer W}
    (h : TextHandler W) (indent s : string) (maxWidth : Z) :
  Fields s = [] ->
  wrap indent s maxWidth h = Some (tt, h).
Proof. intros H. unfold wrap. rewrite H. reflexivity. Qed.

Lemma wrap_blank_witness :
  wrap (pkg := ansiPackage) "    " ("  " ++ nl ++ " ") 80 emptyBuffer
  = Some (tt, emptyBuffer).
Proof.
  exact (wrap_blank (pkg := ansiPackage) emptyBuffer "    " ("  " ++ nl ++ " ") 80
           eq_refl).
Defined.

Lemma fillLines_one_line indent maxWidth (fields : list string) :
  forall cur w,
    cur <> [] -> w = len (renderLine indent cur) ->
    len (renderLine indent (cur ++ fields)) <= maxWidth ->
    fillLines indent maxWidth cur w fields = [(cur ++ fields)%list].
Proof.
  induction fields as [|f rest IH]; intros cur w Hne Hw Hfit; simpl.
  - now rewrite app_nil_r.
  - assert (Hlen : forall l, len (renderLine indent ((cur ++ [f]) ++ l))
                              >= len (renderLine indent (cur ++ [f]))).
    { intros l. destruct l as [|x l]; [rewrite app_nil_r; lia|].
      unfold renderLine. rewrite !len_append.
      assert (forall (a b : list string), a <> [] ->
                len (join " " (a ++ b)) >= len (join " " a)) as Hj.
      { clear. intros a b Ha. revert a Ha.
        induction b as [|y b IHb]; intros a Ha; [rewrite app_nil_r; lia|].
        replace (a ++ y :: b)%list with ((a ++ [y]) ++ b)%list
          by (rewrite <- app_assoc; reflexivity).
        specialize (IHb (a ++ [y])%list).
        rewrite join_snoc in IHb by assumption.
        rewrite !len_append in IHb.
        pose proof (len_nonneg y). change (len " ") with 1 in IHb.
        assert ((a ++ [y])%list <> []) by (destruct a; discriminate).
        specialize (IHb H0). lia. }
      specialize (Hj (cur ++ [f])%list (x :: l)).
      assert ((cur ++ [f])%list <> []) by (destruct cur; discriminate).
      specialize (Hj H). lia. }
    replace (cur ++ f :: rest)%list with ((cur ++ [f]) ++ rest)%list in *
      by (rewrite <- app_assoc; reflexivity).
    specialize (Hlen rest).
    rewrite renderLine_snoc in Hlen by assumption.
    rewrite !len_append in Hlen. change (len " ") with 1 in Hlen.
    replace (maxWidth <? w + len f + 1) with false
      by (symmetry; apply Z.ltb_ge; lia).
    apply IH.
    + destruct cur; discriminate.
    + rewrite renderLine_snoc by assumption. rewrite !len_append.
      change (len " ") with 1. lia.
    + exact Hfit.
Qed.

(** Text that fits is written on one line: when the indent and the words of
    the body, separated by single spaces, do not exceed the width, [wrap]
    writes exactly that; runs of white space in the body become one
    space. *)
Theorem wrap_one_line {pkg : ScanPackage} (h : TextHandler string)
    (indent s : string) (maxWidth : Z) :
  err h = None ->
  Fields s <> [] ->
  len (indent ++ join " " (Fields s)) <= maxWidth ->
  wrap indent s maxWidth h = Some (tt, emit h (indent ++ join " " (Fields s))).
Proof.
  intros He Hne Hfit.
  rewrite (wrap_buffer h indent s maxWidth He).
  f_equal. f_equal. f_equal.
  destruct (Fields s) as [|f rest]; [congruence|].
  unfold wrapLines.
  rewrite fillLines_one_line; try reflexivity; try discriminate.
  - unfold renderLine. simpl. now rewrite len_append.
  - exact Hfit.
Qed.

Lemma wrap_one_line_witness :
  wrap (pkg := ansiPackage) "    " ("Stdlib   vulnerability" ++ nl) 80 emptyBuffer
  = Some (tt, emit emptyBuffer "    Stdlib vulnerability").
Proof.
  refine (wrap_one_line (pkg := ansiPackage) emptyBuffer "    "
            ("Stdlib   vulnerability" ++ nl) 80 eq_refl _ _).
  - discriminate.
  - vm_compute. discriminate.
Defined.

Lemma fillLines_narrow indent maxWidth (fields : list string) :
  forall cur w, maxWidth <= w ->
    (forall f, maxWidth <= len indent + len f) ->
    fillLines indent maxWidth cur w fields = cur :: map (fun f => [f]) fields.
Proof.
  induction fields as [|f rest IH]; intros cur w Hw Hall; simpl; [reflexivity|].
  pose proof (len_nonneg f).
  replace (maxWidth <? w + len f + 1) with true by (symmetry; apply Z.ltb_lt; lia).
  f_equal. apply IH; [apply Hall | exact Hall].
Qed.

(** With a width that the indent alone reaches, every word of the body is
    written on a line of its own. *)
Theorem wrap_narrow {pkg : ScanPackage} (h : TextHandler string)
    (indent s : string) (maxWidth : Z) :
  err h = None ->
  maxWidth <= len indent ->
  wrap indent s maxWidth h
  = Some (tt, emit h (join nl (map (fun f => indent ++ f) (Fields s)))).
Proof.
  intros He Hm.
  rewrite (wrap_buffer h indent s maxWidth He).
  f_equal. f_equal. f_equal.
  assert (Hall : forall f, maxWidth <= len indent + len f)
    by (intros f; pose proof (len_nonneg f); lia).
  destruct (Fields s) as [|f rest]; [reflexivity|].
  unfold wrapLines. rewrite fillLines_narrow by (auto; apply Hall).
  unfold renderLines. f_equal.
  change ([f] :: map (fun f0 => [f0]) rest) with (map (fun f0 => [f0]) (f :: rest)).
  rewrite map_map. reflexivity.
Qed.

Lemma wrap_narrow_witness :
  wrap (pkg := ansiPackage) "  " "one of a kind" 0 emptyBuffer
  = Some (tt, emit emptyBuffer
       ("  one" ++ nl ++ "  of" ++ nl ++ "  a" ++ nl ++ "  kind")).
Proof.
  refine (wrap_narrow (pkg := ansiPackage) emptyBuffer "  " "one of a kind" 0
            eq_refl _).
  vm_compute. discriminate.
Defined.

(** ** Flush and whole scans *)
(** Whatever the sink does, [Flush] returns on findings that have a frame 0
    and entries that carry their database-specific part, and it leaves the
    list of entries and the display options as they are. *)
Theorem Flush_frame {pkg : ScanPackage} {W} {writer : Writer W}
    (h : TextHandler W) :
  Forall (fun f => hasTrace f = true) (findings h) ->
  Forall (fun e => hasDB e = true) (osvs h) ->
  exists r h',
    Flush h = Some (r, h') /\
    osvs h' = osvs h /\
    showColor h' = showColor h /\ showTraces h' = showTraces h.
Proof.
  intros Hw Hd. destruct (Flush_runs h Hw Hd) as [r [h' [E [R _]]]].
  exists r, h'. split; [exact E|].
  destruct (reach_frame _ _ R) as (H1 & H2 & H3 & H4). simpl in *. tauto.
Qed.

Lemma Flush_frame_witness :
  exists r h',
    Flush (pkg := ansiPackage) sampleHandler = Some (r, h') /\
    osvs h' = osvs sampleHandler /\
    showColor h' = showColor sampleHandler /\
    showTraces h' = showTraces sampleHandler.
Proof.
  apply (Flush_frame (pkg := ansiPackage) sampleHandler); repeat constructor.
Defined.

Lemma runEvents_runs {pkg : ScanPackage} {W} {writer : Writer W} (evs : list event) :
  Forall (fun ev => renderable ev = true) evs ->
  forall h : TextHandler W,
    Forall (fun f => hasTrace f = true) (findings h) ->
    Forall (fun e => hasDB e = true) (osvs h) ->
    exists h', runEvents h evs = Some h' /\
               Forall (fun f => hasTrace f = true) (findings h') /\
               Forall (fun e => hasDB e = true) (osvs h').
Proof.
  induction evs as [|ev rest IH]; intros Hev h Hw Hd; simpl.
  - eauto.
  - apply Forall_cons_iff in Hev. destruct Hev as [Hev Hrest].
    specialize (IH Hrest).
    destruct ev as [c|p|e|f].
    + destruct (Runs_Config c h) as [r [h1 [E R]]]. rewrite E.
      destruct (reach_frame _ _ R) as (H1 & H2 & _).
      apply IH; [now rewrite H2 | now rewrite H1].
    + destruct (Runs_Progress p h) as [r [h1 [E R]]]. rewrite E.
      destruct (reach_frame _ _ R) as (H1 & H2 & _).
      apply IH; [now rewrite H2 | now rewrite H1].
    + apply IH; simpl; [exact Hw|].
      apply Forall_app. split; [exact Hd|]. constructor; [exact Hev | constructor].
    + unfold FindingOp.
      destruct (validateFindings f); simpl; apply IH; simpl; try assumption.
      apply Forall_app. split; [exact Hw|].
      constructor; [exact Hev | constructor].
Qed.

(** A scan returns, whatever the sink does and whatever the display
    options, when every entry the producer submits carries its
    database-specific part and every finding it submits has a frame 0,
    whether [Finding] accepts the finding or rejects it: every index the
    renderer takes and every pointer it follows is then in range. *)
Theorem scan_returns {pkg : ScanPackage} {W} {writer : Writer W}
    (out : W) (show : list string) (evs : list event) :
  Forall (fun ev => renderable ev = true) evs ->
  exists r h', scan out show evs = Some (r, h').
Proof.
  intros Hev. unfold scan.
  destruct (Show_fields show (NewTextHandler out)) as (_ & H2 & H3 & _).
  destruct (runEvents_runs evs Hev (Show (NewTextHandler out) show))
    as [h1 [E [Hw Hd]]].
  { rewrite H3. constructor. }
  { rewrite H2. constructor. }
  rewrite E. destruct (Flush_runs h1 Hw Hd) as [r [h' [Ef _]]].
  rewrite Ef. eauto.
Qed.

Lemma scan_returns_witness :
  exists r h',
    scan (pkg := ansiPackage) ((2%nat, EmptyString), []) ["traces"] sampleEvents
    = Some (r, h').
Proof.
  apply (scan_returns (pkg := ansiPackage)). repeat constructor.
Defined.

(** ** When the renderer panics *)

Lemma forallb_false_Exists {A} (p : A -> bool) (l : list A) :
  forallb p l = false <-> Exists (fun x => p x = false) l.
Proof.
  induction l as [|x l IH]; simpl.
  - split; [discriminate | intros H; inversion H].
  - rewrite Exists_cons, andb_false_iff, IH. tauto.
Qed.

(** Whatever the sink and the recorded error, [traces] panics exactly when
    full traces are on and some finding of the slice has a compact trace
    and no frame: [entry.Trace[0]] is then out of range.  With compact
    traces it never panics. *)
Theorem traces_panics {pkg : ScanPackage} {W} {writer : Writer W}
    (entries : list findingSummary) (h : TextHandler W) :
  traces entries h = None <->
  showTraces h = true /\
  Exists (fun e => Compact e <> EmptyString /\ Trace (finding e) = []) entries.
Proof.
  unfold traces.
  rewrite (Decides_None _ _ _ (traces_loop_decides entries 0 true h)).
  rewrite forallb_false_Exists. unfold traceable, hasTrace.
  destruct (showTraces h); simpl.
  - split.
    + intros H. split; [reflexivity|]. eapply Exists_impl; [|exact H].
      intros e He. simpl in He. destruct (Compact e); [discriminate|].
      destruct (Trace (finding e)); [split; [discriminate | reflexivity] | discriminate].
    + intros [_ H]. eapply Exists_impl; [|exact H]. intros e [H1 H2]. simpl.
      rewrite H2. destruct (Compact e); [congruence | reflexivity].
  - split; [|intros [H _]; discriminate]. intros H. exfalso.
    induction H as [e l H|e l H IH]; [discriminate | exact IH].
Qed.

(** Whatever the sink and the recorded error, [vulnerability] panics exactly
    when the group is empty, or the entry of its first finding is nil or
    carries no database-specific part, or the first finding of one of its
    module groups has no frame 0, or [traces] panics on a module group. *)
Theorem vulnerability_panics {pkg : ScanPackage} {W} {writer : Writer W}
    (index : Z) (findings : list findingSummary) (h : TextHandler W) :
  vulnerability index findings h = None <->
  match findings with
  | [] => True
  | f0 :: _ =>
      match OSV f0 with
      | None => True
      | Some e =>
          DBSpecific e = None \/
          Exists (fun module =>
                    match module with
                    | [] => True
                    | m0 :: _ =>
                        Trace (finding m0) = [] \/
                        forallb (traceable (showTraces h)) module = false
                    end) (groupByModule findings)
      end
  end.
Proof.
  rewrite (Decides_None _ _ _ (vulnerability_decides index findings h)).
  unfold renders, hasOSV, hasDB.
  destruct findings as [|f0 rest] eqn:Ef; [tauto|]. rewrite <- Ef.
  destruct (OSV f0) as [e|]; [|tauto].
  rewrite andb_false_iff, forallb_false_Exists.
  assert (Hm : Exists (fun m => printable (showTraces h) m = false)
                 (groupByModule findings)
               <-> Exists (fun module =>
                             match module with
                             | [] => True
                             | m0 :: _ =>
                                 Trace (finding m0) = [] \/
                                 forallb (traceable (showTraces h)) module = false
                             end) (groupByModule findings)).
  { split; intros H; (eapply Exists_impl; [|exact H]); intros m Hp;
      unfold printable, hasTrace in *; destruct m as [|m0 ms]; auto.
    - apply andb_false_iff in Hp. destruct Hp as [Hp|Hp]; [|now right].
      left. destruct (Trace (finding m0)); [reflexivity | discriminate].
    - apply andb_false_iff. destruct Hp as [Hp|Hp]; [|now right].
      left. now rewrite Hp. }
  rewrite Hm. destruct (DBSpecific e); split; intros [H|H]; auto; discriminate.
Qed.

Lemma getOSV_ID osvs (id : string) : ID (getOSV osvs id) = id.
Proof.
  unfold getOSV.
  destruct (find (fun e => (ID e =? id)%string) osvs) as [e|] eqn:E; [|reflexivity].
  apply find_some in E. destruct E as [_ E]. now apply String.eqb_eq in E.
Qed.

(** The group of a finding: it is among the groups, and every member has
    the identity of the finding. *)
Lemma groupBy_member key (fs : list findingSummary) (f : findingSummary) :
  In f fs ->
  exists f0 rest,
    In (f0 :: rest) (groupBy key fs) /\ In f0 fs /\ key f0 = key f.
Proof.
  intros Hf. unfold groupBy.
  set (g := filter (fun f' => (key f' =? key f)%string) fs).
  assert (Hg : In f g) by (apply filter_In; split; [exact Hf | apply String.eqb_refl]).
  destruct g as [|f0 rest] eqn:Eg; [destruct Hg|].
  assert (H0 : In f0 (f0 :: rest)) by now left.
  rewrite <- Eg in H0. apply filter_In in H0. destruct H0 as [H0 Hk].
  exists f0, rest. split; [|split; [exact H0 | now apply String.eqb_eq]].
  rewrite <- Eg. apply in_map_iff. exists (key f). split; [reflexivity|].
  apply firstSeen_In, in_map, Hf.
Qed.

(** Whatever the sink and the recorded error, [Flush] panics exactly when
    one of the vulnerability groups of the findings, resolved against the
    entries, cannot be printed.  A finding that resolves to an entry
    without its database-specific part is such a case. *)
Theorem Flush_panics {pkg : ScanPackage} {W} {writer : Writer W}
    (h : TextHandler W) :
  (Flush h = None <->
   Exists (fun g => renders (showTraces h) g = false)
     (groupByVuln (fixupFindings (osvs h) (findings h)))) /\
  (forall f,
     In f (findings h) ->
     DBSpecific (getOSV (osvs h) (FindingOSV (finding f))) = None ->
     Flush h = None).
Proof.
  assert (H : Flush h = None <->
              Exists (fun g => renders (showTraces h) g = false)
                (groupByVuln (fixupFindings (osvs h) (findings h))))
    by (rewrite Flush_decides; apply forallb_false_Exists).
  split; [exact H|].
  intros f Hf Hd. apply H. apply Exists_exists.
  set (fix1 := fun f => mkFindingSummary (finding f) (Compact f)
                          (Some (getOSV (osvs h) (FindingOSV (finding f))))).
  assert (Hin : In (fix1 f) (fixupFindings (osvs h) (findings h)))
    by (unfold fixupFindings; apply in_map, Hf).
  destruct (groupBy_member vulnID _ _ Hin) as (f0 & rest & Hg & H0 & Hk).
  exists (f0 :: rest). split; [exact Hg|].
  unfold fixupFindings in H0. apply in_map_iff in H0.
  destruct H0 as (f1 & <- & _).
  unfold vulnID in Hk. simpl in Hk. rewrite !getOSV_ID in Hk.
  unfold renders, hasOSV, hasDB. simpl. now rewrite Hk, Hd.
Qed.

Lemma Flush_panics_witness :
  Flush (pkg := ansiPackage) bareHandler = None.
Proof.
  apply (proj2 (Flush_panics (pkg := ansiPackage) bareHandler)
           (newFindingSummary (pkg := ansiPackage) findingHTTP));
    [now left | reflexivity].
Defined.

(** ** Properties of flags.go *)
Section FlagsProofs.

Import Flags.

Context {environment : Env}.

Lemma length_pos_false {A} (l : list A) :
  (0 <? Z.of_nat (length l)) = false <-> l = [].
Proof.
  destruct l; simpl; [tauto|]. split; [|discriminate].
  intros H. apply Z.ltb_ge in H. lia.
Qed.

Lemma query_loop_none (ps : list string) :
  query_loop ps = None <-> Forall (fun p => parseModuleQuery p = None) ps.
Proof.
  induction ps as [|p rest IH]; simpl.
  - split; [constructor | reflexivity].
  - destruct (parseModuleQuery p) eqn:E.
    + split; [discriminate|]. intros H. apply Forall_cons_iff in H.
      destruct H as [H _]. congruence.
    + rewrite IH. split; [now constructor|]. intros H.
      now apply Forall_cons_iff in H.
Qed.

Lemma json_show_ok (cfg : config) (e : flagError) :
  (if json cfg && (0 <? Z.of_nat (length (show cfg))) then Some e else None) = None
  <-> (json cfg = true -> show cfg = []).
Proof.
  destruct (json cfg); simpl.
  - destruct (0 <? Z.of_nat (length (show cfg))) eqn:E.
    + split; [discriminate|]. intros H. rewrite (H eq_refl) in E. discriminate.
    + apply length_pos_false in E. tauto.
  - split; [discriminate | reflexivity].
Qed.

Lemma validateConfig_iff (cfg : config) :
  validateConfig cfg = None <-> accepted cfg.
Proof.
  unfold validateConfig, accepted, validateMode, hasKey, supportedModes,
    modeSource, modeBinary, modeConvert, modeQuery.
  cbn [existsb fst].
  rewrite !(String.eqb_sym _ (mode cfg)).
  destruct (String.eqb_spec (mode cfg) "source") as [Es|Ns].
  { simpl. rewrite Es.
    destruct (patterns cfg) as [|p [|q ps]] eqn:Ep.
    - rewrite json_show_ok. split.
      + intros H. split; [exact H|]. left. split; [reflexivity|]. discriminate.
      + tauto.
    - destruct (isFile p) eqn:Ef.
      + split; [discriminate|]. intros [_ [[_ H]|[[H _]|[[H _]|[H _]]]]];
          try discriminate H. specialize (H p eq_refl). congruence.
      + rewrite json_show_ok. split.
        * intros H. split; [exact H|]. left. split; [reflexivity|].
          intros p' E. inversion E; subst. exact Ef.
        * tauto.
    - rewrite json_show_ok. split.
      + intros H. split; [exact H|]. left. split; [reflexivity|]. discriminate.
      + tauto. }
  destruct (String.eqb_spec (mode cfg) "binary") as [Eb|Nb].
  { simpl. rewrite Eb.
    destruct (test cfg) eqn:Et.
    { split; [discriminate|].
      intros [_ [[H _]|[(_ & H & _)|[[H _]|[H _]]]]]; discriminate H. }
    destruct (0 <? Z.of_nat (length (tags cfg))) eqn:Eg.
    { split; [discriminate|].
      intros [_ [[H _]|[(_ & _ & H & _)|[[H _]|[H _]]]]]; try discriminate H.
      rewrite H in Eg. discriminate. }
    apply length_pos_false in Eg.
    destruct (patterns cfg) as [|p [|q ps]] eqn:Ep.
    - split; [discriminate|].
      intros [_ [[H _]|[(_ & _ & _ & p & H & _)|[[H _]|[H _]]]]]; discriminate H.
    - destruct (isFile p) eqn:Ef; simpl.
      + rewrite json_show_ok. split.
        * intros H. split; [exact H|]. right. left. eauto 10.
        * tauto.
      + split; [discriminate|].
        intros [_ [[H _]|[(_ & _ & _ & p' & H & Hf)|[[H _]|[H _]]]]];
          try discriminate H. inversion H; subst. congruence.
    - split; [discriminate|].
      intros [_ [[H _]|[(_ & _ & _ & p' & H & _)|[[H _]|[H _]]]]]; discriminate H. }
  destruct (String.eqb_spec (mode cfg) "convert") as [Ec|Nc].
  { simpl. rewrite Ec.
    destruct (patterns cfg) as [|p ps] eqn:Ep; simpl.
    2:{ split; [discriminate|].
        intros [_ [[H _]|[[H _]|[(_ & H & _)|[H _]]]]]; discriminate H. }
    destruct (dir cfg) as [|c d] eqn:Ed; simpl.
    2:{ split; [discriminate|].
        intros [_ [[H _]|[[H _]|[(_ & _ & H & _)|[H _]]]]]; discriminate H. }
    destruct (test cfg) eqn:Et.
    { split; [discriminate|].
      intros [_ [[H _]|[[H _]|[(_ & _ & _ & H & _)|[H _]]]]]; discriminate H. }
    destruct (0 <? Z.of_nat (length (tags cfg))) eqn:Eg.
    { split; [discriminate|].
      intros [_ [[H _]|[[H _]|[(_ & _ & _ & _ & H)|[H _]]]]]; try discriminate H.
      rewrite H in Eg. discriminate. }
    apply length_pos_false in Eg.
    rewrite json_show_ok. split.
    - intros H. split; [exact H|]. right. right. left. tauto.
    - tauto. }
  destruct (String.eqb_spec (mode cfg) "query") as [Eq|Nq].
  { simpl. rewrite Eq.
    destruct (test cfg) eqn:Et.
    { split; [discriminate|].
      intros [_ [[H _]|[[H _]|[[H _]|(_ & H & _)]]]]; discriminate H. }
    destruct (0 <? Z.of_nat (length (tags cfg))) eqn:Eg.
    { split; [discriminate|].
      intros [_ [[H _]|[[H _]|[[H _]|(_ & _ & H & _)]]]]; try discriminate H.
      rewrite H in Eg. discriminate. }
    apply length_pos_false in Eg.
    destruct (json cfg) eqn:Ej; simpl.
    2:{ split; [discriminate|].
        intros [_ [[H _]|[[H _]|[[H _]|(_ & _ & _ & H & _)]]]]; discriminate H. }
    destruct (query_loop (patterns cfg)) eqn:El.
    - split; [discriminate|].
      intros [_ [[H _]|[[H _]|[[H _]|(_ & _ & _ & _ & H)]]]]; try discriminate H.
      apply query_loop_none in H. congruence.
    - apply query_loop_none in El.
      destruct (0 <? Z.of_nat (length (show cfg))) eqn:Esh.
      + split; [discriminate|]. intros [H _]. rewrite (H eq_refl) in Esh.
        discriminate.
      + apply length_pos_false in Esh. split.
        * intros _. split; [auto|]. right. right. right. tauto.
        * reflexivity. }
  simpl. split; [discriminate|].
  intros [_ [[H _]|[[H _]|[[H _]|[H _]]]]]; congruence.
Qed.

(** [validateConfig] accepts exactly: source mode, unless the single
    pattern is a file; binary mode with one pattern that is a file and
    neither [-test] nor [-tags]; convert mode with no pattern and none of
    [-C], [-test], [-tags]; query mode with [-json], neither [-test] nor
    [-tags], and patterns that all parse; and in each mode [-show] is not
    combined with [-json]. *)
Theorem validateConfig_accepts (cfg : config) :
  validateConfig cfg = None <->
  (json cfg = true -> show cfg = []) /\
  ((mode cfg = "source" /\ forall p, patterns cfg = [p] -> isFile p = false)
   \/ (mode cfg = "binary" /\ test cfg = false /\ tags cfg = [] /\
       exists p, patterns cfg = [p] /\ isFile p = true)
   \/ (mode cfg = "convert" /\ patterns cfg = [] /\ dir cfg = EmptyString /\
       test cfg = false /\ tags cfg = [])
   \/ (mode cfg = "query" /\ test cfg = false /\ tags cfg = [] /\
       json cfg = true /\
       Forall (fun p => parseModuleQuery p = None) (patterns cfg))).
Proof. apply validateConfig_iff. Qed.

(** Query mode needs [-json] and [-json] excludes [-show]: a configuration
    accepted in query mode has no display option. *)
Theorem query_mode_without_show (cfg : config) :
  validateConfig cfg = None -> mode cfg = modeQuery -> show cfg = [].
Proof.
  intros H Hm. apply validateConfig_iff in H.
  destruct H as [Hs [[H _]|[[H _]|[[H _]|(_ & _ & _ & Hj & _)]]]];
    try (rewrite Hm in H; discriminate H).
  exact (Hs Hj).
Qed.

(** A single pattern is for one of the source and binary modes, never for
    both: with no [-test], no [-tags] and [-show] not combined with [-json],
    source mode accepts it exactly when binary mode rejects it. *)
Theorem source_or_binary (cfg : config) (p : string) :
  patterns cfg = [p] -> test cfg = false -> tags cfg = [] ->
  (json cfg = true -> show cfg = []) ->
  (validateConfig (withMode cfg modeSource) = None
   <-> validateConfig (withMode cfg modeBinary) <> None).
Proof.
  intros Hp Ht Hg Hs. rewrite !validateConfig_iff. unfold accepted. simpl.
  rewrite Hp, Ht, Hg. split.
  - intros [_ [[_ H]|[[H _]|[[H _]|[H _]]]]]; try discriminate H.
    specialize (H p eq_refl).
    intros [_ [[H' _]|[(_ & _ & _ & q & E & Hq)|[[H' _]|[H' _]]]]];
      try discriminate H'. inversion E; subst. congruence.
  - intros H. split; [exact Hs|]. left. split; [reflexivity|].
    intros q E. inversion E; subst.
    destruct (isFile q) eqn:Ef; [|reflexivity].
    exfalso. apply H. split; [exact Hs|]. right. left. eauto 10.
Qed.

(** A path that [isFile] takes for a file exists for [fileExists]; and
    [fileExists] answers no only when the path is reported missing. *)
Theorem isFile_fileExists (path : string) :
  (isFile path = true -> fileExists path = true) /\
  (fileExists path = false <-> osStat path = statNotExist).
Proof.
  unfold isFile, fileExists. destruct (osStat path); split;
    try split; try discriminate; auto.
Qed.

End FlagsProofs.

Lemma query_mode_without_show_witness :
  Flags.show (Flags.mkFlagsConfig "symbol" ["golang.org/x/text@v0.3.0"] "query"
                "https://vuln.go.dev" true EmptyString [] false [] []) = [].
Proof.
  apply (query_mode_without_show (environment := sampleEnv)); reflexivity.
Defined.

Lemma source_or_binary_witness :
  Flags.validateConfig (environment := sampleEnv) (withMode binaryConfig Flags.modeSource) = None
  <-> Flags.validateConfig (environment := sampleEnv) (withMode binaryConfig Flags.modeBinary) <> None.
Proof.
  apply (source_or_binary (environment := sampleEnv) binaryConfig "./app");
    try reflexivity. discriminate.
Defined.

Example binaryConfig_accepted :
  Flags.validateConfig (environment := sampleEnv) binaryConfig = None
  /\ Flags.validateConfig (environment := sampleEnv) (withMode binaryConfig "source")
     = Some (Flags.Errorf ("%q is a file." ++ nl ++ nl ++ "%v")
               [Flags.opString "./app"; Flags.opError Flags.errNoBinaryFlag]).
Proof. split; reflexivity. Qed.

(** ** showFlag *)
Lemma list_ascii_cons c (s : string) :
  list_ascii_of_string (String c s) = c :: list_ascii_of_string s.
Proof. reflexivity. Qed.

Lemma splitComma_nonempty (s : string) : Flags.splitComma s <> [].
Proof.
  induction s as [|c s IH]; simpl; [discriminate|].
  destruct (c =? ",")%char; [discriminate|].
  destruct (Flags.splitComma s); discriminate.
Qed.

Lemma join_comma_cons (f : string) (fs : list string) :
  fs <> [] -> join "," (f :: fs) = f ++ "," ++ join "," fs.
Proof. destruct fs; [congruence | reflexivity]. Qed.

Lemma join_comma_head c (f : string) (fs : list string) :
  join "," (String c f :: fs) = String c (join "," (f :: fs)).
Proof. destruct fs; reflexivity. Qed.

(** [showFlag.Set] never fails and appends the tokens of its argument: at
    least one token, none with a comma, and joined by commas they give the
    argument back. *)
Theorem Set_tokens (v : list string) (s : string) :
  exists tokens,
    Flags.Set_ v s = ((v ++ tokens)%list, None) /\
    tokens <> [] /\ Forall noComma tokens /\ join "," tokens = s.
Proof.
  exists (Flags.splitComma s). split; [reflexivity|].
  split; [apply splitComma_nonempty|].
  induction s as [|c s [IH1 IH2]]; simpl.
  - split; [|reflexivity]. constructor; [|constructor]. intros H. exact H.
  - destruct (Ascii.eqb_spec c ",") as [->|N].
    + split.
      * constructor; [intros H; exact H | exact IH1].
      * rewrite join_comma_cons by apply splitComma_nonempty. now rewrite IH2.
    + pose proof (splitComma_nonempty s) as Hne.
      destruct (Flags.splitComma s) as [|f fs]; [congruence|].
      apply Forall_cons_iff in IH1. destruct IH1 as [Hf Hfs].
      split.
      * constructor; [|exact Hfs]. unfold noComma in *. rewrite list_ascii_cons.
        intros [E|H]; [congruence | auto].
      * rewrite join_comma_head. now rewrite IH2.
Qed.

(** Splitting is the inverse of joining: a list of at least one token, none
    with a comma, is what [strings.Split] gives for its tokens joined by
    commas. *)
Theorem splitComma_join (tokens : list string) :
  tokens <> [] -> Forall noComma tokens ->
  Flags.splitComma (join "," tokens) = tokens.
Proof.
  intros Hne Hall. induction Hall as [|f fs Hf Hfs IH]; [congruence|]. clear Hne.
  induction f as [|c f IHf].
  - destruct fs as [|g gs]; [reflexivity|].
    rewrite join_comma_cons by discriminate.
    cbn [Flags.splitComma append Ascii.eqb Bool.eqb].
    f_equal. apply IH. discriminate.
  - rewrite join_comma_head. cbn [Flags.splitComma].
    destruct (Ascii.eqb_spec c ",") as [->|N].
    + exfalso. apply Hf. rewrite list_ascii_cons. now left.
    + rewrite IHf; [reflexivity|].
      unfold noComma in *. rewrite list_ascii_cons in Hf. intros H. apply Hf. now right.
Qed.

Lemma splitComma_join_witness :
  Flags.splitComma (join "," ["traces"; "color"]) = ["traces"; "color"].
Proof.
  apply (splitComma_join ["traces"; "color"]).
  - discriminate.
  - repeat constructor; unfold noComma; simpl; intuition discriminate.
Defined.
